(** * indhureworkcode.py: indicator-table reshaping and exponential-growth fitting

    A shallow embedding of the data pipeline of [indhureworkcode.py]:
    [data_read], [subset_data], [filter_Methane_emission_data], [exp_growth],
    [err_ranges] and [predict_future].

    - numbers are IEEE binary64 values ([float], as [np.float64]);
    - Python exceptions are the [Raise] branch of the [result] monad;
    - a pandas [DataFrame] is an index plus labelled columns (pandas stores a
      frame column by column);
    - the numerical routines the script imports ([np.exp], [scipy.stats.t.ppf],
      [scipy.optimize.curve_fit]) and the token reader behind [pd.to_numeric]
      are interfaces ([Numerics], [Tokens]): the script's own code is written
      against them. *)

From Stdlib Require Import ZArith String Ascii Bool Lia Floats.
From Stdlib Require Uint63.
From Stdlib Require Import List Sorted.
Import ListNotations.

Set Implicit Arguments.

(** ** Python exceptions and results *)

Inductive exn : Set :=
| KeyError
| ValueError
| TypeError
| IndexError
| RuntimeError.

Inductive result (A : Type) : Type :=
| Ok (a : A)
| Raise (e : exn).

Arguments Ok {A} a.
Arguments Raise {A} e.

Definition bind {A B : Type} (m : result A) (k : A -> result B) : result B :=
  match m with
  | Ok a => k a
  | Raise e => Raise e
  end.

Declare Scope py_scope.
Delimit Scope py_scope with py.
Notation "x <- m ;; k" := (bind m (fun x => k))
  (at level 61, m at next level, right associativity) : py_scope.
Notation "' p <- m ;; k" := (bind m (fun p => k))
  (at level 61, p pattern, m at next level, right associativity) : py_scope.
Open Scope py_scope.

Fixpoint mapM {A B : Type} (f : A -> result B) (l : list A) : result (list B) :=
  match l with
  | [] => Ok []
  | a :: l' => b <- f a ;; bs <- mapM f l' ;; Ok (b :: bs)
  end.

(** ** numpy arrays of float64 *)

Module NP.

Local Open Scope float_scope.

(** int -> float64 conversion (exact below 2^53). *)
Definition of_int (z : Z) : float :=
  if (z <? 0)%Z then - of_uint63 (Uint63.of_Z (- z)) else of_uint63 (Uint63.of_Z z).

(** [np.arange(n)] as it enters float arithmetic. *)
Definition arange (n : nat) : list float :=
  map (fun i => of_int (Z.of_nat i)) (seq 0 n).

(** [np.sum]: the accumulator starts at the additive identity.  (numpy adds
    long arrays pairwise; nothing below depends on the order of the
    additions.) *)
Definition sum (a : list float) : float := fold_left PrimFloat.add a 0.

(** [a ** 2] *)
Definition square (a : list float) : list float := map (fun x => x * x) a.

Fixpoint zip_with (f : float -> float -> float) (a b : list float) : list float :=
  match a, b with
  | x :: a', y :: b' => f x y :: zip_with f a' b'
  | _, _ => []
  end.

(** [a - b] with numpy broadcasting of one-dimensional operands: equal
    lengths, or one operand of length one; anything else is a [ValueError]. *)
Definition subtract (a b : list float) : result (list float) :=
  if Nat.eqb (length a) (length b) then Ok (zip_with PrimFloat.sub a b)
  else match a, b with
       | [x], _ => Ok (map (fun y => x - y) b)
       | _, [y] => Ok (map (fun x => x - y) a)
       | _, _ => Raise ValueError
       end.

(** [np.diag] of a two-dimensional array: entries (i, i) while both the row
    and the column exist. *)
Fixpoint diag_from (i : nat) (m : list (list float)) : list float :=
  match m with
  | [] => []
  | r :: m' =>
      match nth_error r i with
      | Some d => d :: diag_from (S i) m'
      | None => []
      end
  end.

Definition diag (m : list (list float)) : list float := diag_from 0 m.

(** scalar * array *)
Definition scale (c : float) (a : list float) : list float :=
  map (fun x => c * x) a.

(** [np.zeros((r, c))] *)
Definition zeros (r c : nat) : list (list float) := repeat (repeat 0 c) r.

End NP.

(** ** The numerical library the script calls *)

Class Numerics : Type := {
  (** [np.exp] on one float64 *)
  np_exp : float -> float;
  (** [scipy.stats.t.ppf(q, df)] *)
  t_ppf : float -> Z -> float;
  (** [scipy.optimize.curve_fit(f, xdata, ydata)] for a two-parameter model
      [f(x, a, b)]: the fitted parameters and their covariance, or the
      exception the solver raises. *)
  curve_fit : (float -> float -> float -> float) -> list float -> list float ->
              result (list float * list (list float))
}.

Section GrowthFitter.

Context {N : Numerics}.
Local Open Scope float_scope.

(** [exp_growth(x, a, b)] at one abscissa. *)
Definition exp_growth (x a b : float) : float := a * np_exp (b * x).

(** [exp_growth(xdata, *popt)]: the call unpacks [popt] into the two model
    parameters; any other number of parameters is a [TypeError]. *)
Definition exp_growth_star (xdata popt : list float) : result (list float) :=
  match popt with
  | [a; b] => Ok (map (fun x => exp_growth x a b) xdata)
  | _ => Raise TypeError
  end.

Definition default_alpha : float := 0x1.999999999999ap-5.   (* 0.05 *)

Definition err_ranges (xdata ydata popt : list float)
    (pcov : list (list float)) (alpha : float) : result (list float) :=
  let n := Z.of_nat (length ydata) in
  let m := Z.of_nat (length popt) in
  let df := Z.max 0 (n - m) in
  let tval := (-1) * t_ppf (alpha / 2) df in
  model <- exp_growth_star xdata popt ;;
  residuals <- NP.subtract ydata model ;;
  let stdev := PrimFloat.sqrt (NP.sum (NP.square residuals) / NP.of_int df) in
  let ci := NP.scale (tval * stdev) (map PrimFloat.sqrt (NP.diag pcov)) in
  Ok ci.

End GrowthFitter.

(** ** pandas frames *)

Module PD.

(** A cell of an object column as [read_csv] leaves it: a parsed number
    (NaN for an empty field) or the text of the field. *)
Inductive cell : Set :=
| Num (f : float)
| Str (s : string).

Definition notna (v : float) : bool := negb (is_nan v).

(** A frame with row labels [R] and column labels [C]: the index and the
    labelled columns, each column holding one value per index entry. *)
Record frame (R C : Type) : Type := Frame {
  index : list R;
  cols : list (C * list float)
}.

Section Frames.

Context {R C : Type}.

Definition columns (f : frame R C) : list C := map fst (cols f).

(** [df.shape] *)
Definition shape (f : frame R C) : nat * nat :=
  (length (index f), length (cols f)).

(** [df.iloc[i]] as an array of values *)
Definition iloc (f : frame R C) (i : nat) : list float :=
  map (fun c => nth i (snd c) nan) (cols f).

(** [df.dropna(how='all', axis=1)]: a column stays when it holds at least
    one value that is not missing. *)
Definition dropna_all_columns (f : frame R C) : frame R C :=
  {| index := index f;
     cols := filter (fun c => existsb notna (snd c)) (cols f) |}.

(** [df.transpose()] *)
Definition transpose (f : frame R C) : frame C R :=
  {| index := columns f;
     cols := map (fun ir => (snd ir, iloc f (fst ir)))
                 (combine (seq 0 (length (index f))) (index f)) |}.

(** Rows of a frame taken by position, in the order given. *)
Definition take_rows (pos : list (nat * R)) (f : frame R C) : frame R C :=
  {| index := map snd pos;
     cols := map (fun c => (fst c, map (fun p => nth (fst p) (snd c) nan) pos))
                 (cols f) |}.

End Frames.

(** *** Sorted label sets *)

Section SortUniq.

Context {K : Type} (cmp : K -> K -> comparison).

Fixpoint insert (x : K) (l : list K) : list K :=
  match l with
  | [] => [x]
  | y :: l' =>
      match cmp x y with
      | Eq => l
      | Lt => x :: l
      | Gt => y :: insert x l'
      end
  end.

Definition sort_uniq (l : list K) : list K := fold_right insert [] l.

Definition same (x y : K) : bool :=
  match cmp x y with Eq => true | _ => false end.

End SortUniq.

Definition cmp_pair {A B : Type} (ca : A -> A -> comparison)
    (cb : B -> B -> comparison) (x y : A * B) : comparison :=
  match ca (fst x) (fst y) with
  | Eq => cb (snd x) (snd y)
  | o => o
  end.

(** *** [pivot_table] with the default [aggfunc='mean'] and [dropna=True] *)

Section PivotTable.

Context {R C : Type}.
Variable cmpR : R -> R -> comparison.
Variable cmpC : C -> C -> comparison.

Local Open Scope float_scope.

(** The group mean skips missing values; a group without values is missing. *)
Definition mean (vs : list float) : float :=
  match filter notna vs with
  | [] => nan
  | xs => NP.sum xs / NP.of_int (Z.of_nat (length xs))
  end.

(** [groupby] leaves out the records whose key holds a missing label. *)
Definition groupby_keys (es : list (option R * option C * float))
    : list (R * C * float) :=
  flat_map (fun e => match e with
                     | (Some r, Some c, v) => [(r, c, v)]
                     | _ => []
                     end) es.

Definition group (es : list (R * C * float)) (r : R) (c : C) : list float :=
  map snd (filter (fun e => same cmpR (fst (fst e)) r && same cmpC (snd (fst e)) c) es).

Definition agg (es : list (R * C * float)) (r : R) (c : C) : float :=
  mean (group es r c).

(** [agged.dropna(how='all')]: groups whose mean is missing are left out. *)
Definition agged (es : list (R * C * float)) : list (R * C * float) :=
  filter (fun e => notna (agg es (fst (fst e)) (snd (fst e)))) es.

(** The table: the keys that are left, sorted, on both axes; the group mean
    in a cell, NaN where there is no group; and, last, the columns without a
    value dropped. *)
Definition pivot_table (records : list (option R * option C * float)) : frame R C :=
  let es := groupby_keys records in
  let idx := sort_uniq cmpR (map (fun e => fst (fst e)) (agged es)) in
  let labels := sort_uniq cmpC (map (fun e => snd (fst e)) (agged es)) in
  dropna_all_columns
    {| index := idx;
       cols := map (fun c => (c, map (fun r => agg es r c) idx)) labels |}.

End PivotTable.

(** *** [pd.to_numeric] *)

Inductive errors_arg : Set :=
| errors_raise
| errors_coerce.

(** [read] is the reading of one entry as a number, [na] the missing value
    of the target type. *)
Definition to_numeric {T A : Type} (read : T -> option A) (na : A)
    (errors : errors_arg) (col : list T) : result (list A) :=
  mapM (fun t => match read t with
                 | Some a => Ok a
                 | None => match errors with
                           | errors_coerce => Ok na
                           | errors_raise => Raise ValueError
                           end
                 end) col.

(** *** Label-based selection *)

(** [df.loc[:, labels]] with a list of labels: every label must be a column
    label; the columns come in the order requested. *)
Definition loc_columns {R : Type} (f : frame R Z) (labels : list Z)
    : result (frame R Z) :=
  picked <- mapM (fun y => match filter (fun c => Z.eqb (fst c) y) (cols f) with
                           | [] => Raise KeyError
                           | cs => Ok cs
                           end) labels ;;
  Ok {| index := index f; cols := concat picked |}.

Fixpoint positions_from {K : Type} (p : nat) (test : K -> bool) (l : list K)
    : list (nat * K) :=
  match l with
  | [] => []
  | k :: l' => if test k then (p, k) :: positions_from (S p) test l'
               else positions_from (S p) test l'
  end.

Definition key_eqb (a b : string * string) : bool :=
  String.eqb (fst a) (fst b) && String.eqb (snd a) (snd b).

Definition occurs (s : string) (level : list string) : bool :=
  existsb (String.eqb s) level.

(** The requested labels without repeats, each at its first place. *)
Fixpoint unique (l : list string) : list string :=
  match l with
  | [] => []
  | s :: l' => s :: filter (fun t => negb (String.eqb s t)) (unique l')
  end.

(** [MultiIndex.get_locs((countries, indicators))] (pandas 2): a label that
    no row carries at its level is a [KeyError], and so is a selection that
    matches no row; the rows found come ordered by the requested labels. *)
Definition get_locs (idx : list (string * string)) (countries indicators : list string)
    : result (list (nat * (string * string))) :=
  match countries with
  | [] => Ok []
  | _ =>
      if forallb (fun c => occurs c (map fst idx)) countries then
        match indicators with
        | [] => Ok []
        | _ =>
            if forallb (fun i => occurs i (map snd idx)) indicators then
              match flat_map (fun c =>
                      flat_map (fun i => positions_from 0 (key_eqb (c, i)) idx)
                               (unique indicators))
                      (unique countries) with
              | [] => Raise KeyError
              | found => Ok found
              end
            else Raise KeyError
        end
      else Raise KeyError
  end.

(** [df.loc[(countries, indicators), years]] *)
Definition loc (f : frame (string * string) Z) (countries indicators : list string)
    (years : list Z) : result (frame (string * string) Z) :=
  by_year <- loc_columns f years ;;
  found <- get_locs (index f) countries indicators ;;
  Ok (take_rows found by_year).

(** Position of the first label not below / above a bound in an increasing
    label list ([searchsorted] with side left / right). *)
Fixpoint searchsorted_left (l : list Z) (v : Z) : nat :=
  match l with
  | [] => 0
  | y :: l' => if (y <? v)%Z then S (searchsorted_left l' v) else 0
  end.

Fixpoint searchsorted_right (l : list Z) (v : Z) : nat :=
  match l with
  | [] => 0
  | y :: l' => if (y <=? v)%Z then S (searchsorted_right l' v) else 0
  end.

(** [df.loc[:, start:stop]] on increasing integer labels: the positional
    slice between the two bounds, both labels included. *)
Definition loc_slice {R : Type} (f : frame R Z) (start stop : Z) : frame R Z :=
  let lo := searchsorted_left (columns f) start in
  let hi := searchsorted_right (columns f) stop in
  {| index := index f; cols := firstn (hi - lo) (skipn lo (cols f)) |}.

End PD.

(** ** The token reader behind [pd.to_numeric] *)

Class Tokens : Type := {
  (** the integer a year label reads as, if it reads as one *)
  int_token : string -> option Z;
  (** the float64 a field reads as, if it reads as a number *)
  float_token : string -> option float
}.

(** ** The World Bank export, as [pd.read_csv(filename, skiprows=4)] returns it

    The layout is the fixed one of the export: the four leading columns, one
    column per year and the unnamed trailing column.  (On a file without
    these columns [drop] and [melt] raise [KeyError]; such files are outside
    this type.) *)

Record raw_row : Set := RawRow {
  country_name : string;        (* 'Country Name' *)
  country_code : string;        (* 'Country Code' *)
  indicator_name : string;      (* 'Indicator Name' *)
  indicator_code : string;      (* 'Indicator Code' *)
  year_cells : list PD.cell;    (* one cell per year column *)
  unnamed_66 : PD.cell          (* 'Unnamed: 66', the trailing empty column *)
}.

Record raw_table : Set := RawTable {
  year_labels : list string;    (* the labels of the year columns *)
  raw_rows : list raw_row
}.

(** The table after [drop(cols_to_drop, axis=1)] and
    [rename(columns={'Country Name': 'Country'})]. *)
Record wide_row : Set := WideRow {
  Country : string;
  Indicator_Name : string;
  cells : list PD.cell
}.

Record wide_table : Set := WideTable {
  value_vars : list string;
  wide_rows : list wide_row
}.

(** The long table that [melt] builds, column by column. *)
Record long_table (Y V : Type) : Type := LongTable {
  long_Country : list string;
  long_Indicator_Name : list string;
  long_Year : list Y;
  long_Value : list V
}.

Section TidyReshaper.

Context {T : Tokens}.

Definition drop_and_rename (t : raw_table) : wide_table :=
  {| value_vars := year_labels t;
     wide_rows := map (fun r => {| Country := country_name r;
                                   Indicator_Name := indicator_name r;
                                   cells := year_cells r |}) (raw_rows t) |}.

(** [df.melt(id_vars=['Country', 'Indicator Name'], var_name='Year',
    value_name='Value')]: one block of rows per year column, in column
    order; a field that the line lacks is missing. *)
Definition melt (w : wide_table) : long_table string PD.cell :=
  let blocks := combine (seq 0 (length (value_vars w))) (value_vars w) in
  {| long_Country := flat_map (fun _ => map Country (wide_rows w)) blocks;
     long_Indicator_Name := flat_map (fun _ => map Indicator_Name (wide_rows w)) blocks;
     long_Year := flat_map (fun jl => map (fun _ => snd jl) (wide_rows w)) blocks;
     long_Value := flat_map (fun jl => map (fun r => nth (fst jl) (cells r) (PD.Num nan))
                                           (wide_rows w)) blocks |}.

Definition read_year (s : string) : option (option Z) :=
  option_map Some (int_token s).

Definition read_value (c : PD.cell) : option float :=
  match c with
  | PD.Num f => Some f
  | PD.Str s => float_token s
  end.

(** [df['Year'] = pd.to_numeric(df['Year'], errors='coerce')]
    [df['Value'] = pd.to_numeric(df['Value'], errors='coerce')] *)
Definition coerce (l : long_table string PD.cell)
    : result (long_table (option Z) float) :=
  years <- PD.to_numeric read_year None PD.errors_coerce (long_Year l) ;;
  values <- PD.to_numeric read_value nan PD.errors_coerce (long_Value l) ;;
  Ok {| long_Country := long_Country l;
        long_Indicator_Name := long_Indicator_Name l;
        long_Year := years;
        long_Value := values |}.

Definition cmp_key : string * string -> string * string -> comparison :=
  PD.cmp_pair String.compare String.compare.

Definition cmp_year_key : Z * string -> Z * string -> comparison :=
  PD.cmp_pair Z.compare String.compare.

(** [df.pivot_table(index=['Country', 'Indicator Name'], columns='Year',
    values='Value')] *)
Definition pivot_years (l : long_table (option Z) float)
    : PD.frame (string * string) Z :=
  PD.pivot_table cmp_key Z.compare
    (map (fun e => match e with
                   | (c, i, y, v) => (Some (c, i), y, v)
                   end)
         (combine (combine (combine (long_Country l) (long_Indicator_Name l))
                           (long_Year l)) (long_Value l))).

(** [df.pivot_table(index=['Year', 'Indicator Name'], columns='Country',
    values='Value')] *)
Definition pivot_countries (l : long_table (option Z) float)
    : PD.frame (Z * string) string :=
  PD.pivot_table cmp_year_key String.compare
    (map (fun e => match e with
                   | (c, i, y, v) => (option_map (fun y' => (y', i)) y, Some c, v)
                   end)
         (combine (combine (combine (long_Country l) (long_Indicator_Name l))
                           (long_Year l)) (long_Value l))).

Definition data_read (file : raw_table)
    : result (PD.frame (string * string) Z * PD.frame (Z * string) string) :=
  let df := drop_and_rename file in
  let df := melt df in
  df <- coerce df ;;
  let df_years := pivot_years df in
  let df_countries := pivot_countries df in
  let df_years := PD.dropna_all_columns df_years in
  let df_countries := PD.dropna_all_columns df_countries in
  Ok (df_years, df_countries).

(** [list(range(1990, 2019))] *)
Definition years_1990_2018 : list Z := map Z.of_nat (seq 1990 29).

Definition subset_data (df_years : PD.frame (string * string) Z)
    (countries indicators : list string) : result (PD.frame Z (string * string)) :=
  let years := years_1990_2018 in
  df <- PD.loc df_years countries indicators years ;;
  let df := PD.transpose df in
  Ok df.

Definition isin (s : string) (values : list string) : bool :=
  existsb (String.eqb s) values.

(** [df[df['Country'].isin(countries) & df['Indicator Name'].isin(indicators)]] *)
Definition filter_rows (countries indicators : list string) (w : wide_table)
    : wide_table :=
  {| value_vars := value_vars w;
     wide_rows := filter (fun r => isin (Country r) countries
                                   && isin (Indicator_Name r) indicators)
                         (wide_rows w) |}.

Definition filter_Methane_emission_data (file : raw_table)
    (countries indicators : list string) (start_year end_year : Z)
    : result (PD.frame (string * string) Z) :=
  let d := drop_and_rename file in
  let d := filter_rows countries indicators d in
  let d := melt d in
  d <- coerce d ;;
  let d := pivot_years d in
  let d := PD.loc_slice d start_year end_year in
  Ok d.

End TidyReshaper.

(** ** The batch fit *)

Section BatchFit.

Context {T : Tokens} {N : Numerics}.

(** [popt[1]] *)
Definition getitem (a : list float) (i : nat) : result float :=
  match nth_error a i with
  | Some v => Ok v
  | None => Raise IndexError
  end.

(** [growth_rate[i] = b]: the scalar is written to every entry of row [i]. *)
Fixpoint set_row (g : list (list float)) (i : nat) (b : float) : list (list float) :=
  match g, i with
  | [], _ => []
  | r :: g', O => map (fun _ => b) r :: g'
  | r :: g', S i' => r :: set_row g' i' b
  end.

(** One turn of the loop of [predict_future]: the fit of row [i], its
    confidence half-widths (bound to [ci] and not used again), and the
    write to [growth_rate].  The row [data.iloc[i]] enters the numerical
    calls as its array of values. *)
Definition fit_row (data : PD.frame (string * string) Z)
    (growth_rate : list (list float)) (i : nat) : result (list (list float)) :=
  let x := NP.arange (snd (PD.shape data)) in
  ' (popt, pcov) <- curve_fit exp_growth x (PD.iloc data i) ;;
  ci <- err_ranges x (PD.iloc data i) popt pcov default_alpha ;;
  b <- getitem popt 1 ;;
  Ok (set_row growth_rate i b).

Fixpoint fit_loop (data : PD.frame (string * string) Z)
    (rows : list nat) (growth_rate : list (list float)) : result (list (list float)) :=
  match rows with
  | [] => Ok growth_rate
  | i :: rows' =>
      growth_rate <- fit_row data growth_rate i ;;
      fit_loop data rows' growth_rate
  end.

(** The body of [predict_future] after the slice is read; the plotting
    calls that follow the loop only render [data] and return nothing. *)
Definition fit_table (data : PD.frame (string * string) Z)
    : result (list (list float)) :=
  let growth_rate := NP.zeros (fst (PD.shape data)) (snd (PD.shape data)) in
  fit_loop data (seq 0 (fst (PD.shape data))) growth_rate.

Definition predict_future (file : raw_table) (countries indicators : list string)
    (start_year end_year : Z) : result (list (list float)) :=
  data <- filter_Methane_emission_data file countries indicators start_year end_year ;;
  fit_table data.

(** The half-widths that the loop computes for row [i] and binds to [ci]. *)
Definition row_ci (data : PD.frame (string * string) Z) (i : nat)
    : result (list float) :=
  let x := NP.arange (snd (PD.shape data)) in
  ' (popt, pcov) <- curve_fit exp_growth x (PD.iloc data i) ;;
  err_ranges x (PD.iloc data i) popt pcov default_alpha.

End BatchFit.

(** ** Spec-side wording of the confidence interval (spec 4.2) *)

Section ConfidenceIntervalSpec.

Context {N : Numerics}.
Local Open Scope float_scope.

(** Degrees of freedom = max(0, n_observations - n_params). *)
Definition degrees_of_freedom (n_observations n_params : nat) : Z :=
  Z.max 0 (Z.of_nat n_observations - Z.of_nat n_params).

(** The two-tailed critical value: the Student-t quantile at alpha/2,
    with its sign turned. *)
Definition critical_value (alpha : float) (dof : Z) : float :=
  (-1) * t_ppf (alpha / 2) dof.

(** Residual k: observation k minus the model a.e^(b.x) at abscissa k. *)
Definition residual (x y : list float) (a b : float) (k : nat) : float :=
  nth k y nan - a * np_exp (b * nth k x nan).

Definition sum_squared_residuals (x y : list float) (a b : float) : float :=
  NP.sum (map (fun k => residual x y a b k * residual x y a b k)
              (seq 0 (length y))).

(** sqrt(sum of squared residuals / degrees_of_freedom) *)
Definition residual_stdev (x y : list float) (a b : float) (dof : Z) : float :=
  PrimFloat.sqrt (sum_squared_residuals x y a b / NP.of_int dof).


End ConfidenceIntervalSpec.

(** A float64 that is not finite. *)
Definition nonfinite (x : float) : Prop :=
  x = nan \/ x = infinity \/ x = neg_infinity.

(** The outcome the degenerate case is asked to have: an exception, or
    half-widths that are all infinite. *)
Definition flagged (r : result (list float)) : Prop :=
  match r with
  | Raise _ => True
  | Ok ci => Forall (fun h => h = infinity \/ h = neg_infinity) ci
  end.

(** ** Normalisation *)

(** [StandardScaler().fit_transform] on a two-dimensional array (a list of
    rows): the scaled array, or the exception the scaler raises. *)
Class Scaler : Type := {
  fit_transform : list (list float) -> result (list (list float))
}.

(** The values of a frame as a two-dimensional array, row by row. *)
Definition to_numpy {R C : Type} (df : PD.frame R C) : list (list float) :=
  map (PD.iloc df) (seq 0 (length (PD.index df))).

(** [pd.DataFrame(array, columns=labels)]: the rows are numbered from 0; an
    array whose rows do not have one entry per label is a [ValueError]. *)
Definition DataFrame {C : Type} (array : list (list float)) (labels : list C)
    : result (PD.frame nat C) :=
  if forallb (fun row => Nat.eqb (length row) (length labels)) array
  then Ok {| PD.index := seq 0 (length array);
             PD.cols := map (fun jl => (snd jl, map (fun row => nth (fst jl) row nan) array))
                            (combine (seq 0 (length labels)) labels) |}
  else Raise ValueError.

Definition normalize_data {S : Scaler} {R C : Type} (df : PD.frame R C)
    : result (PD.frame nat C) :=
  scaled <- fit_transform (to_numpy df) ;;
  DataFrame scaled (PD.columns df).

(** ** A small numerical library to run the model on concrete tables *)

Module Bench.

Local Open Scope float_scope.

Fixpoint digits (s : string) (acc : Z) : option Z :=
  match s with
  | EmptyString => Some acc
  | String c s' =>
      let n := nat_of_ascii c in
      if (48 <=? n)%nat && (n <=? 57)%nat
      then digits s' (10 * acc + Z.of_nat (n - 48))%Z
      else None
  end.

(** Unsigned decimal integers; every other token is not a number. *)
Definition decimal (s : string) : option Z :=
  match s with
  | EmptyString => None
  | _ => digits s 0%Z
  end.

#[export] Instance decimal_tokens : Tokens := {|
  int_token := decimal;
  float_token := fun s => option_map NP.of_int (decimal s)
|}.

(** e^x by its power series, 16 terms. *)
Fixpoint exp_series (k : nat) (x term acc : float) (i : float) : float :=
  match k with
  | O => acc
  | S k' => exp_series k' x (term * x / i) (acc + term) (i + 1)
  end.

Definition series_exp (x : float) : float := exp_series 16 x 1 0 1.

(** The lower 2.5% Student-t quantile for a few degrees of freedom; like
    scipy, NaN when the degrees of freedom are not positive. *)
Definition t_table (q : float) (dof : Z) : float :=
  if (dof <=? 0)%Z then nan
  else if (dof =? 1)%Z then -0x1.969dc5d638866p+3     (* -12.7062 *)
  else if (dof =? 2)%Z then -0x1.135fd8bc4d2d6p+2     (*  -4.3027 *)
  else if (dof =? 3)%Z then -0x1.975a31a4bdba1p+1     (*  -3.1824 *)
  else -0x1.f5c28f5c28f5cp+0.                         (*  -1.96   *)

(** A fitter that anchors the curve at the first observation and takes the
    relative step to the second one as exponent; like scipy it refuses an
    empty series and a series with a missing value. *)
Definition anchor_fit (f : float -> float -> float -> float)
    (xdata ydata : list float) : result (list float * list (list float)) :=
  if existsb is_nan ydata then Raise ValueError
  else match ydata with
       | [] => Raise ValueError
       | [y0] => Ok ([y0; 0], [[1; 0]; [0; 1]])
       | y0 :: y1 :: _ => Ok ([y0; (y1 - y0) / y0], [[1; 0]; [0; 1]])
       end.

Definition numerics_with (quantile : float -> Z -> float) : Numerics := {|
  np_exp := series_exp;
  t_ppf := quantile;
  curve_fit := anchor_fit
|}.

#[export] Instance numerics : Numerics := numerics_with t_table.

(** Three rows of a World Bank export with the year columns 1990 to 1992. *)
Definition table : raw_table :=
  {| year_labels := ["1990"; "1991"; "1992"]%string;
     raw_rows :=
       [ RawRow "India" "IND" "CO2" "EN.CO2"
           [PD.Num 2; PD.Num 3; PD.Num 4.5] (PD.Num nan);
         RawRow "China" "CHN" "CO2" "EN.CO2"
           [PD.Num 5; PD.Str ".."; PD.Num 6] (PD.Num nan);
         RawRow "Japan" "JPN" "CH4" "EN.CH4"
           [PD.Str "7"; PD.Num 8; PD.Num 9] (PD.Num nan) ]%string |}.

(** A second quantile function, to tell computed half-widths apart. *)
Definition t_flat (q : float) (dof : Z) : float := -2.

(** A years view with every year from 1990 to 2018 and the two row keys
    (India, CO2) and (China, CH4). *)
Definition two_keys : PD.frame (string * string) Z :=
  {| PD.index := [("China", "CH4"); ("India", "CO2")]%string;
     PD.cols := map (fun y => (y, [1; NP.of_int y])) years_1990_2018 |}.

(** A scaler that centres every column on its mean and divides by its
    standard deviation (1 for a constant column); like sklearn it refuses an
    array without rows. *)
Definition column (array : list (list float)) (j : nat) : list float :=
  map (fun row => nth j row nan) array.

Definition standardize (col : list float) (v : float) : float :=
  let n := NP.of_int (Z.of_nat (length col)) in
  let mu := NP.sum col / n in
  let sd := PrimFloat.sqrt (NP.sum (map (fun x => (x - mu) * (x - mu)) col) / n) in
  (v - mu) / (if PrimFloat.eqb sd 0 then 1 else sd).

Definition standard_scaler (array : list (list float)) : result (list (list float)) :=
  match array with
  | [] => Raise ValueError
  | _ => Ok (map (fun row => map (fun jv => standardize (column array (fst jv)) (snd jv))
                                 (combine (seq 0 (length row)) row)) array)
  end.

#[export] Instance scaler : Scaler := {| fit_transform := standard_scaler |}.

(** The table [subset_data] makes of [two_keys] for India and CO2. *)
Definition india_co2 : PD.frame Z (string * string) :=
  Eval cbv in
    match subset_data two_keys ["India"%string] ["CO2"%string] with
    | Ok df => df
    | Raise _ => {| PD.index := []; PD.cols := [] |}
    end.

(** Two years of two series, as [subset_data] would hand them on. *)
Definition two_series : PD.frame Z (string * string) :=
  {| PD.index := [1990%Z; 1991%Z];
     PD.cols := [(("India", "CO2")%string, [2; 3]);
                 (("Japan", "CH4")%string, [7; 8])] |}.

End Bench.

(** ** Wording of the reshaping properties *)

(** A column whose entries are all missing. *)
Definition all_missing (col : list float) : Prop :=
  forall v, In v col -> is_nan v = true.

(** The value a coerced entry takes: the number read, or the missing value. *)
Definition coerced {T A : Type} (read : T -> option A) (na : A) (t : T) : A :=
  match read t with
  | Some a => a
  | None => na
  end.

(** The raw table restricted to the rows of the requested countries and
    indicators. *)
Definition restrict_rows (countries indicators : list string) (file : raw_table)
    : raw_table :=
  {| year_labels := year_labels file;
     raw_rows := filter (fun r => isin (country_name r) countries
                                  && isin (indicator_name r) indicators)
                        (raw_rows file) |}.

(** The columns whose label lies between [start] and [stop], both included. *)
Definition label_range {R : Type} (start stop : Z) (f : PD.frame R Z) : PD.frame R Z :=
  {| PD.index := PD.index f;
     PD.cols := filter (fun c => (start <=? fst c)%Z && (fst c <=? stop)%Z) (PD.cols f) |}.


(** ** Wording of the batch-fit properties *)

(** The same numerical library with another Student-t quantile function. *)
Definition with_quantile (quantile : float -> Z -> float) (N : Numerics) : Numerics :=
  {| np_exp := @np_exp N; t_ppf := quantile; curve_fit := @curve_fit N |}.

(** The exception a call ends with, if it ends with one. *)
Definition raised {A : Type} (r : result A) : option exn :=
  match r with
  | Ok _ => None
  | Raise e => Some e
  end.

(** What a successful turn of the loop on row [i] has done: a two-parameter
    fit with exponent [b], and half-widths computed from it. *)
Definition fitted {N : Numerics} (data : PD.frame (string * string) Z) (i : nat)
    (b : float) : Prop :=
  exists a pcov ci,
    curve_fit exp_growth (NP.arange (snd (PD.shape data))) (PD.iloc data i)
    = Ok ([a; b], pcov) /\
    err_ranges (NP.arange (snd (PD.shape data))) (PD.iloc data i) [a; b] pcov default_alpha
    = Ok ci.


(** ** Wording of the further properties *)

(** A frame is rectangular when every column holds one value per index entry. *)
Definition rectangular {R C : Type} (f : PD.frame R C) : Prop :=
  Forall (fun c => length (snd c) = length (PD.index f)) (PD.cols f).

Fixpoint index_of {K : Type} (eqb : K -> K -> bool) (k : K) (l : list K) : option nat :=
  match l with
  | [] => None
  | k' :: l' => if eqb k' k then Some 0
                else option_map S (index_of eqb k l')
  end.

(** The cell of a frame at a row label and a column label (the first row and
    the first column that carry them), if both exist. *)
Definition cell_at {R C : Type} (eqR : R -> R -> bool) (eqC : C -> C -> bool)
    (f : PD.frame R C) (r : R) (c : C) : option float :=
  match index_of eqR r (PD.index f), find (fun col => eqC (fst col) c) (PD.cols f) with
  | Some p, Some col => Some (nth p (snd col) nan)
  | _, _ => None
  end.

(** A comparison that is a strict total order. *)
Record order_laws {K : Type} (cmp : K -> K -> comparison) : Prop := {
  cmp_refl : forall x, cmp x x = Eq;
  cmp_eq : forall x y, cmp x y = Eq -> x = y;
  cmp_antisym : forall x y, cmp x y = CompOpp (cmp y x);
  cmp_trans : forall x y z, cmp x y = Lt -> cmp y z = Lt -> cmp x z = Lt
}.

(** The long table that [coerce] returns. *)
Definition coerced_table {T : Tokens} (l : long_table string PD.cell)
    : long_table (option Z) float :=
  {| long_Country := long_Country l;
     long_Indicator_Name := long_Indicator_Name l;
     long_Year := map int_token (long_Year l);
     long_Value := map (coerced read_value nan) (long_Value l) |}.

(** The records of the long table of a wide table, one per row and year
    column, after coercion. *)
Definition long_records {T : Tokens} (w : wide_table)
    : list (string * string * option Z * float) :=
  flat_map (fun jl => map (fun r => (Country r, Indicator_Name r, int_token (snd jl),
                                     coerced read_value nan (nth (fst jl) (cells r) (PD.Num nan))))
                          (wide_rows w))
           (combine (seq 0 (length (value_vars w))) (value_vars w)).


Definition year_key_eqb (a b : Z * string) : bool :=
  Z.eqb (fst a) (fst b) && String.eqb (snd a) (snd b).



(** * Properties *)

(** ** The model on the bench table *)

Example data_read_table :
  data_read (T := Bench.decimal_tokens) Bench.table
  = Ok ({| PD.index := [("China", "CO2"); ("India", "CO2"); ("Japan", "CH4")]%string;
           PD.cols := [(1990%Z, [5; 2; 7]%float);
                       (1991%Z, [nan; 3; 8]%float);
                       (1992%Z, [6; 4.5; 9]%float)] |},
        {| PD.index := [(1990%Z, "CH4"); (1990%Z, "CO2"); (1991%Z, "CH4");
                        (1991%Z, "CO2"); (1992%Z, "CH4"); (1992%Z, "CO2")]%string;
           PD.cols := [("China"%string, [nan; 5; nan; nan; nan; 6]%float);
                       ("India"%string, [nan; 2; nan; 3; nan; 4.5]%float);
                       ("Japan"%string, [7; nan; 8; nan; 9; nan]%float)] |}).
Proof. vm_compute. reflexivity. Qed.

Example filter_table :
  filter_Methane_emission_data (T := Bench.decimal_tokens) Bench.table
    ["India"; "Japan"]%string ["CO2"; "CH4"]%string 1991 1992
  = Ok {| PD.index := [("India", "CO2"); ("Japan", "CH4")]%string;
          PD.cols := [(1991%Z, [3; 8]%float); (1992%Z, [4.5; 9]%float)] |}.
Proof. vm_compute. reflexivity. Qed.

Example coerce_or_raise :
  PD.to_numeric (read_value (T := Bench.decimal_tokens)) nan PD.errors_coerce
    [PD.Num 5; PD.Str ".."; PD.Str "7"]%string = Ok [5; nan; 7]%float /\
  PD.to_numeric (read_value (T := Bench.decimal_tokens)) nan PD.errors_raise
    [PD.Num 5; PD.Str ".."; PD.Str "7"]%string = Raise ValueError.
Proof. split; vm_compute; reflexivity. Qed.

(** A row with a missing value stops the whole batch. *)
Example predict_future_table :
  predict_future (T := Bench.decimal_tokens) (N := Bench.numerics) Bench.table
    ["India"; "Japan"]%string ["CO2"; "CH4"]%string 1990 1991
  = Ok [[0.5; 0.5]; [0x1.2492492492492p-3; 0x1.2492492492492p-3]]%float /\
  predict_future (T := Bench.decimal_tokens) (N := Bench.numerics) Bench.table
    ["India"; "China"]%string ["CO2"%string] 1990 1992
  = Raise ValueError.
Proof. split; vm_compute; reflexivity. Qed.

(** ** The result monad *)

Lemma bind_ok {A B : Type} (m : result A) (k : A -> result B) (b : B) :
  bind m k = Ok b -> exists a, m = Ok a /\ k a = Ok b.
Proof.
  destruct m as [a|e]; simpl; intros H; [exists a; auto | discriminate].
Qed.

Lemma mapM_total {A B : Type} (f : A -> result B) (g : A -> B) (l : list A) :
  (forall a, f a = Ok (g a)) -> mapM f l = Ok (map g l).
Proof.
  intros H; induction l as [|a l IH]; simpl; [reflexivity|].
  rewrite H. simpl. rewrite IH. reflexivity.
Qed.

(** ** IEEE facts used below *)

Section FloatFacts.

Local Open Scope float_scope.

Lemma nonfinite_spec (x : float) :
  match Prim2SF x with
  | S754_nan | S754_infinity _ => True
  | _ => False
  end -> nonfinite x.
Proof.
  unfold nonfinite. destruct (Prim2SF x) as [s|s| |s m e] eqn:E; try tauto; intros _.
  - destruct s.
    + right; right. apply Prim2SF_inj. rewrite E. reflexivity.
    + right; left. apply Prim2SF_inj. rewrite E. reflexivity.
  - left. apply Prim2SF_inj. rewrite E. reflexivity.
Qed.

Lemma nonfinite_inv (x : float) :
  nonfinite x ->
  match Prim2SF x with
  | S754_nan | S754_infinity _ => True
  | _ => False
  end.
Proof.
  intros [->|[->| ->]]; exact I.
Qed.

Lemma mul_nan_r (x : float) : x * nan = nan.
Proof.
  apply Prim2SF_inj. rewrite mul_spec.
  change (Prim2SF nan) with S754_nan.
  destruct (Prim2SF x); reflexivity.
Qed.

Lemma mul_nan_l (x : float) : nan * x = nan.
Proof.
  apply Prim2SF_inj. rewrite mul_spec. reflexivity.
Qed.

Lemma mul_nonfinite_r (x y : float) : nonfinite y -> nonfinite (x * y).
Proof.
  intros H. apply nonfinite_inv in H. apply nonfinite_spec.
  rewrite mul_spec. unfold SF64mul, SFmul.
  destruct (Prim2SF x), (Prim2SF y); tauto.
Qed.

Lemma mul_nonfinite_l (x y : float) : nonfinite x -> nonfinite (x * y).
Proof.
  intros H. apply nonfinite_inv in H. apply nonfinite_spec.
  rewrite mul_spec. unfold SF64mul, SFmul.
  destruct (Prim2SF x), (Prim2SF y); tauto.
Qed.

Lemma div_zero_nonfinite (x : float) : nonfinite (x / 0).
Proof.
  apply nonfinite_spec. rewrite div_spec.
  change (Prim2SF 0) with (S754_zero false).
  unfold SF64div, SFdiv. destruct (Prim2SF x); exact I.
Qed.

Lemma sqrt_nonfinite (x : float) : nonfinite x -> nonfinite (PrimFloat.sqrt x).
Proof.
  intros [->|[->| ->]]; apply nonfinite_spec; exact I.
Qed.

End FloatFacts.

(** ** numpy arrays *)

Lemma zip_with_nth (f : float -> float -> float) (a b : list float) :
  length a = length b ->
  NP.zip_with f a b = map (fun k => f (nth k a nan) (nth k b nan)) (seq 0 (length a)).
Proof.
  revert b; induction a as [|x a IH]; intros [|y b] H; try discriminate; [reflexivity|].
  simpl. f_equal. rewrite <- seq_shift, map_map. apply IH. simpl in H. lia.
Qed.



(** ** [err_ranges] *)

Section ErrRanges.

Context {N : Numerics}.
Local Open Scope float_scope.

(** The squared residuals of the code are those of the spec's wording. *)
Lemma residuals_pointwise (x y : list float) (a b : float) :
  length x = length y ->
  NP.square (NP.zip_with PrimFloat.sub y (map (fun v => exp_growth v a b) x))
  = map (fun k => residual x y a b k * residual x y a b k) (seq 0 (length y)).
Proof.
  intros H. unfold NP.square.
  rewrite zip_with_nth by (rewrite length_map; lia).
  rewrite map_map. apply map_ext_in. intros k Hk. apply in_seq in Hk.
  unfold residual, exp_growth.
  set (g := fun v => a * np_exp (b * v)).
  rewrite (nth_indep (map g x) nan (g nan)) by (rewrite length_map; lia).
  rewrite map_nth. reflexivity.
Qed.

(** What [err_ranges] evaluates to on a two-parameter fit. *)
Lemma err_ranges_unfold (x y : list float) (a b : float)
    (pcov : list (list float)) (alpha : float) :
  length x = length y ->
  err_ranges x y [a; b] pcov alpha
  = Ok (NP.scale
          (critical_value alpha (degrees_of_freedom (length y) 2)
           * residual_stdev x y a b (degrees_of_freedom (length y) 2))
          (map PrimFloat.sqrt (NP.diag pcov))).
Proof.
  intros H. unfold err_ranges. simpl exp_growth_star. cbn [bind].
  unfold NP.subtract. rewrite length_map.
  replace (Nat.eqb (length y) (length x)) with true
    by (symmetry; apply Nat.eqb_eq; lia).
  cbn [bind]. rewrite residuals_pointwise by exact H. reflexivity.
Qed.

(** A parameter vector that is not the model's two parameters cannot be
    unpacked into [exp_growth]. *)
Lemma err_ranges_arity (x y popt : list float) (pcov : list (list float)) (alpha : float) :
  length popt <> 2%nat -> err_ranges x y popt pcov alpha = Raise TypeError.
Proof.
  intros H. unfold err_ranges, exp_growth_star.
  destruct popt as [|a [|b [|? ?]]]; simpl in *; try reflexivity. contradiction.
Qed.

End ErrRanges.



(** ** Zero degrees of freedom *)

Ltac float_discr H :=
  apply (f_equal Prim2SF) in H; vm_compute in H; discriminate H.

Section ZeroDof.

Context {N : Numerics}.
Local Open Scope float_scope.

(** With a zero divisor the residual standard deviation is not finite. *)
Lemma residual_stdev_zero_dof (x y : list float) (a b : float) :
  nonfinite (residual_stdev x y a b 0).
Proof.
  unfold residual_stdev. change (NP.of_int 0) with 0.
  apply sqrt_nonfinite, div_zero_nonfinite.
Qed.

(** 0/0 and NaN/0 are NaN. *)
Lemma residual_stdev_exact_fit (x y : list float) (a b : float) :
  sum_squared_residuals x y a b = 0 \/ sum_squared_residuals x y a b = nan ->
  residual_stdev x y a b 0 = nan.
Proof.
  unfold residual_stdev. intros [-> | ->]; reflexivity.
Qed.

(** What the formula gives when the divisor is zero. *)
Lemma half_widths_zero_dof (x y : list float) (a b : float)
    (pcov : list (list float)) (alpha : float) :
  length x = length y ->
  degrees_of_freedom (length y) 2 = 0%Z ->
  exists ci,
    err_ranges x y [a; b] pcov alpha = Ok ci /\
    length ci = length (NP.diag pcov) /\
    Forall nonfinite ci /\
    (sum_squared_residuals x y a b = 0 \/ sum_squared_residuals x y a b = nan ->
     Forall (fun h => h = nan) ci).
Proof.
  intros Hxy Hdof.
  eexists. split; [apply err_ranges_unfold; exact Hxy|].
  rewrite Hdof. unfold NP.scale. split; [now rewrite !length_map|]. split.
  - apply Forall_forall. intros h Hh. apply in_map_iff in Hh as (d & <- & _).
    apply mul_nonfinite_l, mul_nonfinite_r, residual_stdev_zero_dof.
  - intros HS. apply Forall_forall. intros h Hh. apply in_map_iff in Hh as (d & <- & _).
    rewrite (residual_stdev_exact_fit _ _ _ _ HS), mul_nan_r. apply mul_nan_l.
Qed.

End ZeroDof.

(** C2, as the code has it. With zero degrees of freedom [err_ranges] raises
    no error and sets no flag: on a two-parameter fit with as many abscissas
    as observations it returns half-widths none of which is finite (each is
    NaN or infinite), and all of them are NaN when the sum of squared
    residuals is zero or NaN. *)
Theorem err_ranges_zero_dof {N : Numerics} (xdata ydata popt : list float)
    (pcov : list (list float)) (alpha : float) :
  length popt = 2 ->
  length xdata = length ydata ->
  degrees_of_freedom (length ydata) (length popt) = 0%Z ->
  exists ci,
    err_ranges xdata ydata popt pcov alpha = Ok ci /\
    Forall nonfinite ci /\
    (sum_squared_residuals xdata ydata (nth 0 popt nan) (nth 1 popt nan) = 0%float \/
     sum_squared_residuals xdata ydata (nth 0 popt nan) (nth 1 popt nan) = nan ->
     Forall (fun h => h = nan) ci).
Proof.
  intros Hm Hxy Hdof.
  destruct popt as [|a [|b [|? ?]]]; try discriminate. simpl length in *. simpl nth.
  destruct (half_widths_zero_dof xdata ydata a b pcov alpha Hxy Hdof)
    as (ci & E & _ & Hnf & Hnan).
  exists ci. auto.
Qed.

(** Two observations and two parameters. *)
Lemma err_ranges_zero_dof_witness :
  exists ci,
    err_ranges (N := Bench.numerics) [0; 1]%float [0; 0]%float [0; 0]%float
               [[1; 0]; [0; 1]]%float default_alpha = Ok ci /\
    Forall nonfinite ci /\
    (sum_squared_residuals (N := Bench.numerics) [0; 1]%float [0; 0]%float
       (nth 0 [0; 0]%float nan) (nth 1 [0; 0]%float nan) = 0%float \/
     sum_squared_residuals (N := Bench.numerics) [0; 1]%float [0; 0]%float
       (nth 0 [0; 0]%float nan) (nth 1 [0; 0]%float nan) = nan ->
     Forall (fun h => h = nan) ci).
Proof.
  apply (@err_ranges_zero_dof Bench.numerics [0; 1]%float [0; 0]%float [0; 0]%float
           [[1; 0]; [0; 1]]%float default_alpha);
    [reflexivity | reflexivity | reflexivity].
Defined.

(** C2, as stated, fails: two observations, two parameters and an exact fit
    give zero degrees of freedom, and [err_ranges] returns the half-widths
    [nan; nan], neither an exception nor infinite. *)
Lemma err_ranges_zero_dof_unflagged :
  degrees_of_freedom 2 2 = 0%Z /\
  err_ranges (N := Bench.numerics) [0; 1]%float [0; 0]%float [0; 0]%float
             [[1; 0]; [0; 1]]%float default_alpha = Ok [nan; nan] /\
  ~ flagged (err_ranges (N := Bench.numerics) [0; 1]%float [0; 0]%float [0; 0]%float
                        [[1; 0]; [0; 1]]%float default_alpha).
Proof.
  split; [reflexivity|]. split; [vm_compute; reflexivity|].
  intros H. vm_compute in H. inversion H as [|? ? [E|E] _]; float_discr E.
Qed.

(** The same input gives [nan; nan] whatever [np.exp] and [t.ppf] compute:
    the residuals are 0 - 0 * e, whose square is 0 or NaN. *)
Lemma zero_times (e : float) :
  PrimFloat.mul 0 e = 0%float \/ PrimFloat.mul 0 e = (-0)%float \/ PrimFloat.mul 0 e = nan.
Proof.
  destruct (Prim2SF e) as [s|s| |s m x] eqn:E.
  - destruct s; [right; left | left]; apply Prim2SF_inj; rewrite mul_spec, E; reflexivity.
  - right; right. apply Prim2SF_inj. rewrite mul_spec, E. reflexivity.
  - right; right. apply Prim2SF_inj. rewrite mul_spec, E. reflexivity.
  - destruct s; [right; left | left]; apply Prim2SF_inj; rewrite mul_spec, E; reflexivity.
Qed.

Lemma err_ranges_exact_fit_any_library {N : Numerics} (alpha : float) :
  err_ranges [0; 1]%float [0; 0]%float [0; 0]%float [[1; 0]; [0; 1]]%float alpha
  = Ok [nan; nan].
Proof.
  destruct (@half_widths_zero_dof N [0; 1]%float [0; 0]%float 0%float 0%float
              [[1; 0]; [0; 1]]%float alpha eq_refl eq_refl)
    as (ci & E & Hlen & _ & Hnan).
  rewrite E. f_equal. cbn in Hlen.
  assert (Hall : Forall (fun h => h = nan) ci).
  { apply Hnan. unfold sum_squared_residuals, residual, NP.sum. cbn [length seq map nth fold_left].
    change (PrimFloat.mul 0 0) with 0%float. change (PrimFloat.mul 0 1) with 0%float.
    destruct (zero_times (np_exp 0)) as [-> | [-> | ->]]; vm_compute; auto. }
  destruct ci as [|h0 [|h1 [|? ?]]]; try discriminate.
  inversion Hall as [|? ? -> Hall']. inversion Hall' as [|? ? -> _]. reflexivity.
Qed.

(** ** Coercion *)

Lemma to_numeric_coerce {T A : Type} (read : T -> option A) (na : A) (col : list T) :
  PD.to_numeric read na PD.errors_coerce col = Ok (map (coerced read na) col).
Proof.
  unfold PD.to_numeric. apply mapM_total. intros t. unfold coerced.
  destruct (read t); reflexivity.
Qed.

(** With [errors='raise'] the same call stops at the first token that is not
    a number. *)
Lemma to_numeric_raise {T A : Type} (read : T -> option A) (na : A)
    (before after : list T) (t : T) :
  read t = None ->
  Forall (fun u => read u <> None) before ->
  PD.to_numeric read na PD.errors_raise (before ++ t :: after) = Raise ValueError.
Proof.
  intros Ht. unfold PD.to_numeric.
  induction before as [|u before IH]; intros Hb; simpl.
  - rewrite Ht. reflexivity.
  - inversion Hb as [|? ? Hu Hb']; subst.
    destruct (read u); [|congruence]. simpl. rewrite IH by exact Hb'. reflexivity.
Qed.

Lemma coerce_ok {T : Tokens} (l : long_table string PD.cell) :
  coerce l = Ok {| long_Country := long_Country l;
                   long_Indicator_Name := long_Indicator_Name l;
                   long_Year := map int_token (long_Year l);
                   long_Value := map (coerced read_value nan) (long_Value l) |}.
Proof.
  unfold coerce. rewrite !to_numeric_coerce. cbn [bind].
  do 2 f_equal. apply map_ext. intros s. unfold coerced, read_year.
  destruct (int_token s); reflexivity.
Qed.

(** C9. The Year/Value coercion of [data_read] is total: on every long table
    it returns, entry by entry, the number a token reads as and the missing
    value ([None] for a year, NaN for a value) for a token that is not a
    number; it never raises, and so [data_read] returns on every table. *)
Theorem coercion_is_total {T : Tokens} :
  (forall l : long_table string PD.cell,
      exists out,
        coerce l = Ok out /\
        length (long_Year out) = length (long_Year l) /\
        length (long_Value out) = length (long_Value l) /\
        (forall k s, nth_error (long_Year l) k = Some s ->
                     nth_error (long_Year out) k = Some (int_token s)) /\
        (forall k c, nth_error (long_Value l) k = Some c ->
                     nth_error (long_Value out) k
                     = Some (match c with
                             | PD.Num f => f
                             | PD.Str s => match float_token s with
                                           | Some f => f
                                           | None => nan
                                           end
                             end))) /\
  (forall file, exists y c, data_read file = Ok (y, c)).
Proof.
  split.
  - intros l. eexists. split; [apply coerce_ok|]. cbn [long_Year long_Value].
    rewrite !length_map. repeat split.
    + intros k s H. now apply map_nth_error.
    + intros k c H. erewrite map_nth_error by exact H. f_equal.
      unfold coerced, read_value. destruct c; reflexivity.
  - intros file. unfold data_read. rewrite coerce_ok. cbn [bind]. eauto.
Qed.

(** ** Columns without a value *)

Lemma dropna_all_columns_spec {R C : Type} (f : PD.frame R C) :
  Forall (fun c => ~ all_missing (snd c)) (PD.cols (PD.dropna_all_columns f)).
Proof.
  apply Forall_forall. intros c Hc. cbn in Hc.
  apply filter_In in Hc as [_ Hc]. apply existsb_exists in Hc as (v & Hv & Hn).
  intros Hall. specialize (Hall v Hv). unfold PD.notna in Hn.
  rewrite Hall in Hn. discriminate.
Qed.

Lemma dropna_all_columns_idem {R C : Type} (f : PD.frame R C) :
  PD.dropna_all_columns (PD.dropna_all_columns f) = PD.dropna_all_columns f.
Proof.
  unfold PD.dropna_all_columns. cbn. f_equal.
  induction (PD.cols f) as [|c l IH]; [reflexivity|]. simpl.
  destruct (existsb PD.notna (snd c)) eqn:E; simpl; rewrite ?E, IH; reflexivity.
Qed.

(** C6. On every wide input table [data_read] returns its two views, and
    neither the years-as-columns view nor the countries-as-columns view holds
    a column whose entries are all missing. *)
Theorem data_read_no_empty_column {T : Tokens} (file : raw_table) :
  exists df_years df_countries,
    data_read file = Ok (df_years, df_countries) /\
    Forall (fun c => ~ all_missing (snd c)) (PD.cols df_years) /\
    Forall (fun c => ~ all_missing (snd c)) (PD.cols df_countries).
Proof.
  unfold data_read. rewrite coerce_ok. cbn [bind].
  do 2 eexists. split; [reflexivity|].
  split; apply dropna_all_columns_spec.
Qed.

(** ** Sorted column labels and label slices *)

Lemma insert_In (x z : Z) (l : list Z) :
  In z (PD.insert Z.compare x l) -> z = x \/ In z l.
Proof.
  induction l as [|y l IH]; simpl.
  - intros [<-|[]]. now left.
  - destruct (Z.compare x y); simpl; intros H.
    + now right.
    + destruct H as [<-|H]; [now left | now right].
    + destruct H as [<-|H]; [right; now left|].
      destruct (IH H) as [->|Hin]; [now left | right; now right].
Qed.

Lemma insert_sorted (x : Z) (l : list Z) :
  StronglySorted Z.lt l -> StronglySorted Z.lt (PD.insert Z.compare x l).
Proof.
  induction 1 as [|y l Hs IH Hy]; simpl.
  - repeat constructor.
  - destruct (Z.compare x y) eqn:E.
    + now constructor.
    + pose proof (proj1 (Z.compare_lt_iff x y) E) as Hlt.
      constructor; [now constructor|].
      constructor; [exact Hlt|]. eapply Forall_impl; [|exact Hy]. intros a Ha. lia.
    + pose proof (proj1 (Z.compare_gt_iff x y) E) as Hgt.
      constructor; [exact IH|].
      apply Forall_forall. intros z Hz. apply insert_In in Hz as [->|Hz]; [exact Hgt|].
      rewrite Forall_forall in Hy. now apply Hy.
Qed.

Lemma sort_uniq_sorted (l : list Z) : StronglySorted Z.lt (PD.sort_uniq Z.compare l).
Proof.
  induction l as [|x l IH]; simpl; [constructor | now apply insert_sorted].
Qed.

Lemma sorted_filter_labels {X : Type} (p : Z * X -> bool) (l : list (Z * X)) :
  StronglySorted Z.lt (map fst l) -> StronglySorted Z.lt (map fst (filter p l)).
Proof.
  induction l as [|c l IH]; simpl; intros H; [constructor|].
  inversion H as [|? ? Hs Hc]; subst.
  destruct (p c); simpl; [|now apply IH].
  constructor; [now apply IH|].
  apply Forall_forall. intros z Hz. apply in_map_iff in Hz as (c' & <- & Hc').
  apply filter_In in Hc' as [Hc' _]. rewrite Forall_forall in Hc.
  apply Hc. now apply in_map.
Qed.

Lemma filter_nothing {A : Type} (p : A -> bool) (l : list A) :
  (forall a, In a l -> p a = false) -> filter p l = [].
Proof.
  induction l as [|a l IH]; simpl; intros H; [reflexivity|].
  rewrite (H a) by now left. apply IH. intros b Hb. apply H. now right.
Qed.

Section LabelSlice.

Context {X : Type}.
Variables start stop : Z.

Let in_range (c : Z * X) : bool := ((start <=? fst c)%Z && (fst c <=? stop)%Z)%bool.

(** Right of the start label, the slice ends where the labels pass [stop]. *)
Lemma slice_upto (l : list (Z * X)) :
  StronglySorted Z.lt (map fst l) ->
  Forall (fun y => (start <= y)%Z) (map fst l) ->
  firstn (PD.searchsorted_right (map fst l) stop) l = filter in_range l.
Proof.
  induction l as [|c l IH]; simpl; intros Hs Hge; [reflexivity|].
  inversion Hs as [|? ? Hs' Hc]; subst. inversion Hge as [|? ? Hc0 Hge']; subst.
  unfold in_range at 1.
  destruct (Z.leb_spec (fst c) stop) as [Hle|Hgt].
  - replace (start <=? fst c)%Z with true by (symmetry; apply Z.leb_le; lia).
    simpl. f_equal. now apply IH.
  - rewrite andb_false_r. simpl. symmetry. apply filter_nothing.
    intros a Ha. unfold in_range. rewrite Forall_forall in Hc.
    specialize (Hc (fst a) (in_map fst _ _ Ha)).
    replace (fst a <=? stop)%Z with false by (symmetry; apply Z.leb_gt; lia).
    apply andb_false_r.
Qed.

(** On increasing labels the positional slice between the two bounds is the
    set of columns with [start <= label <= stop]. *)
Lemma slice_is_range (l : list (Z * X)) :
  StronglySorted Z.lt (map fst l) ->
  firstn (PD.searchsorted_right (map fst l) stop - PD.searchsorted_left (map fst l) start)
         (skipn (PD.searchsorted_left (map fst l) start) l)
  = filter in_range l.
Proof.
  induction l as [|c l IH]; simpl; intros Hs; [reflexivity|].
  inversion Hs as [|? ? Hs' Hc]; subst.
  destruct (Z.ltb_spec (fst c) start) as [Hlt|Hge].
  - unfold in_range at 1.
    replace (start <=? fst c)%Z with false by (symmetry; apply Z.leb_gt; lia).
    simpl andb. cbv iota.
    destruct (Z.leb_spec (fst c) stop) as [Hle|Hgt].
    + simpl. now apply IH.
    + simpl. symmetry. apply filter_nothing.
      intros a Ha. unfold in_range. rewrite Forall_forall in Hc.
      specialize (Hc (fst a) (in_map fst _ _ Ha)).
      replace (fst a <=? stop)%Z with false by (symmetry; apply Z.leb_gt; lia).
      apply andb_false_r.
  - rewrite Nat.sub_0_r. simpl skipn.
    change (firstn (PD.searchsorted_right (map fst (c :: l)) stop) (c :: l)
            = filter in_range (c :: l)).
    apply slice_upto; [exact Hs|].
    constructor; [exact Hge|]. eapply Forall_impl; [|exact Hc]. intros a Ha. lia.
Qed.

End LabelSlice.

Lemma loc_slice_label_range {R : Type} (f : PD.frame R Z) (start stop : Z) :
  StronglySorted Z.lt (PD.columns f) ->
  PD.loc_slice f start stop = label_range start stop f.
Proof.
  intros H. unfold PD.loc_slice, label_range. f_equal.
  now apply slice_is_range.
Qed.

(** ** [filter_Methane_emission_data] against [data_read] *)

Section FilterSlice.

Context {T : Tokens}.

Lemma pivot_table_columns_sorted {R : Type} (cmpR : R -> R -> comparison)
    (records : list (option R * option Z * float)) :
  StronglySorted Z.lt (PD.columns (PD.pivot_table cmpR Z.compare records)).
Proof.
  unfold PD.pivot_table, PD.columns, PD.dropna_all_columns. cbn [PD.cols].
  apply sorted_filter_labels. rewrite map_map. cbn [fst]. rewrite map_id.
  apply sort_uniq_sorted.
Qed.

Lemma pivot_table_dropna {R C : Type} (cmpR : R -> R -> comparison)
    (cmpC : C -> C -> comparison) (records : list (option R * option C * float)) :
  PD.dropna_all_columns (PD.pivot_table cmpR cmpC records)
  = PD.pivot_table cmpR cmpC records.
Proof.
  unfold PD.pivot_table. apply dropna_all_columns_idem.
Qed.

Lemma drop_and_rename_restrict (countries indicators : list string) (file : raw_table) :
  drop_and_rename (restrict_rows countries indicators file)
  = filter_rows countries indicators (drop_and_rename file).
Proof.
  unfold drop_and_rename, restrict_rows, filter_rows. cbn. f_equal.
  induction (raw_rows file) as [|r l IH]; [reflexivity|]. simpl.
  destruct (isin (country_name r) countries && isin (indicator_name r) indicators);
    simpl; now rewrite IH.
Qed.

End FilterSlice.

(** C5. [filter_Methane_emission_data] is [data_read]'s years view (the same
    drop, rename, melt, coerce and pivot) of the table whose rows were
    restricted to the requested countries and indicators before melting,
    with the columns cut to the labels from [start_year] to [end_year], both
    endpoints included. *)
Theorem filter_is_sliced_read {T : Tokens} (file : raw_table)
    (countries indicators : list string) (start_year end_year : Z) :
  filter_Methane_emission_data file countries indicators start_year end_year
  = bind (data_read (restrict_rows countries indicators file))
         (fun views => Ok (label_range start_year end_year (fst views))).
Proof.
  unfold filter_Methane_emission_data, data_read.
  rewrite drop_and_rename_restrict, !coerce_ok. cbn [bind fst].
  unfold pivot_years at 2. rewrite pivot_table_dropna.
  fold (pivot_years
    {| long_Country := long_Country (melt (filter_rows countries indicators (drop_and_rename file)));
       long_Indicator_Name := long_Indicator_Name (melt (filter_rows countries indicators (drop_and_rename file)));
       long_Year := map int_token (long_Year (melt (filter_rows countries indicators (drop_and_rename file))));
       long_Value := map (coerced read_value nan) (long_Value (melt (filter_rows countries indicators (drop_and_rename file)))) |}).
  f_equal. apply loc_slice_label_range. apply pivot_table_columns_sorted.
Qed.

(** ** [subset_data] *)


Lemma mapM_raises {A B : Type} (f : A -> result B) (l : list A) (e0 e : exn) :
  (forall a e', f a = Raise e' -> e' = e0) -> mapM f l = Raise e -> e = e0.
Proof.
  intros Hf. induction l as [|a l IH]; simpl; [discriminate|].
  destruct (f a) as [b|e'] eqn:E; simpl.
  - destruct (mapM f l) as [bs|e'']; simpl; [discriminate|].
    intros H. injection H as <-. now apply IH.
  - intros H. injection H as <-. now apply (Hf a).
Qed.

Lemma key_eqb_eq (a b : string * string) : PD.key_eqb a b = true <-> a = b.
Proof.
  destruct a as [a1 a2], b as [b1 b2]. unfold PD.key_eqb. simpl.
  rewrite andb_true_iff, !String.eqb_eq. split; [intros [-> ->] | intros [= -> ->]]; auto.
Qed.

Lemma occurs_In (s : string) (level : list string) :
  PD.occurs s level = true <-> In s level.
Proof.
  unfold PD.occurs. rewrite existsb_exists. split.
  - intros (x & Hx & E). apply String.eqb_eq in E. now subst.
  - intros H. exists s. split; [exact H | apply String.eqb_refl].
Qed.

Lemma unique_In (s : string) (l : list string) : In s (PD.unique l) <-> In s l.
Proof.
  induction l as [|a l IH]; simpl; [tauto|].
  rewrite filter_In, IH, negb_true_iff, String.eqb_neq.
  destruct (string_dec a s) as [->|Hne]; tauto.
Qed.


Section Positions.

Context {K : Type}.
Variable test : K -> bool.

Lemma positions_from_In (p0 : nat) (l : list K) (q : nat * K) :
  In q (PD.positions_from p0 test l) -> test (snd q) = true /\ In (snd q) l.
Proof.
  revert p0; induction l as [|k l IH]; simpl; intros p0 H; [contradiction|].
  destruct (test k) eqn:E.
  - destruct H as [<-|H]; [simpl; auto|].
    destruct (IH _ H); auto.
  - destruct (IH _ H); auto.
Qed.

Lemma positions_from_found (p0 : nat) (l : list K) (k : K) :
  In k l -> test k = true -> In k (map snd (PD.positions_from p0 test l)).
Proof.
  revert p0; induction l as [|a l IH]; simpl; intros p0 H Ht; [contradiction|].
  destruct H as [->|H].
  - rewrite Ht. now left.
  - destruct (test a); [right|]; now apply IH.
Qed.

Lemma positions_from_none (p0 : nat) (l : list K) :
  (forall k, In k l -> test k = false) -> PD.positions_from p0 test l = [].
Proof.
  revert p0; induction l as [|a l IH]; simpl; intros p0 H; [reflexivity|].
  rewrite (H a) by now left. apply IH. intros k Hk. apply H. now right.
Qed.

End Positions.





Lemma loc_columns_raises {R : Type} (f : PD.frame R Z) (labels : list Z) (e : exn) :
  PD.loc_columns f labels = Raise e -> e = KeyError.
Proof.
  unfold PD.loc_columns.
  destruct (mapM _ labels) as [picked|e'] eqn:E; simpl; [discriminate|].
  intros H. injection H as <-. revert E. apply mapM_raises.
  intros y e''. destruct (filter _ (PD.cols f)); [|discriminate]. now intros [= <-].
Qed.

Lemma get_locs_raises (idx : list (string * string)) (countries indicators : list string)
    (e : exn) :
  PD.get_locs idx countries indicators = Raise e -> e = KeyError.
Proof.
  unfold PD.get_locs.
  destruct countries; [discriminate|].
  destruct (forallb _ _); [|now intros [= <-]].
  destruct indicators; [discriminate|].
  destruct (forallb _ _); [|now intros [= <-]].
  destruct (flat_map _ _); [now intros [= <-] | discriminate].
Qed.


Lemma get_locs_found (idx : list (string * string)) (countries indicators : list string)
    (found : list (nat * (string * string))) :
  PD.get_locs idx countries indicators = Ok found ->
  forall k, In k (map snd found) <->
            In k idx /\ In (fst k) countries /\ In (snd k) indicators.
Proof.
  unfold PD.get_locs.
  destruct countries as [|c0 cs].
  { intros [= <-] k. simpl. tauto. }
  destruct (forallb _ (c0 :: cs)); [|discriminate].
  destruct indicators as [|i0 l].
  { intros [= <-] k. simpl. tauto. }
  destruct (forallb _ (i0 :: l)); [|discriminate].
  set (cs' := c0 :: cs). set (l' := i0 :: l).
  destruct (flat_map _ _) as [|q found'] eqn:E; [discriminate|].
  intros [= <-] k. rewrite <- E. clear E. split.
  - intros H. apply in_map_iff in H as (q' & <- & H).
    apply in_flat_map in H as (c & Hc & H). apply in_flat_map in H as (i & Hi & H).
    rewrite unique_In in Hc, Hi.
    apply positions_from_In in H as [Ht Hin]. apply key_eqb_eq in Ht.
    rewrite <- Ht. simpl. rewrite Ht. auto.
  - intros (Hin & Hc & Hi). destruct k as [c i]. simpl in Hc, Hi.
    assert (Hq : In (c, i) (map snd (PD.positions_from 0 (PD.key_eqb (c, i)) idx)))
      by (apply positions_from_found; [exact Hin | now apply key_eqb_eq]).
    apply in_map_iff in Hq as (q' & Hq' & Hq). apply in_map_iff. exists q'.
    split; [exact Hq'|].
    apply in_flat_map. exists c. split; [now apply unique_In|].
    apply in_flat_map. exists i. split; [now apply unique_In | exact Hq].
Qed.

Lemma transpose_labels {R C : Type} (f : PD.frame R C) :
  PD.index (PD.transpose f) = PD.columns f /\
  PD.columns (PD.transpose f) = PD.index f /\
  Forall (fun c => length (snd c) = length (PD.cols f)) (PD.cols (PD.transpose f)).
Proof.
  unfold PD.transpose, PD.columns. cbn [PD.index PD.cols]. repeat split.
  - rewrite map_map. cbn [fst].
    assert (H : forall (l : list R) p, map (fun ir : nat * R => snd ir) (combine (seq p (length l)) l) = l).
    { induction l as [|r l IH]; intros p; simpl; [reflexivity | now rewrite IH]. }
    apply H.
  - apply Forall_forall. intros c Hc. apply in_map_iff in Hc as (ir & <- & _).
    cbn [snd]. unfold PD.iloc. apply length_map.
Qed.








(** ** The loop of [predict_future] *)

Lemma set_row_length (g : list (list float)) (i : nat) (b : float) :
  length (set_row g i b) = length g.
Proof.
  revert i; induction g as [|r g IH]; intros [|i]; simpl; auto.
Qed.

Lemma set_row_same (g : list (list float)) (i : nat) (b : float) :
  i < length g -> nth i (set_row g i b) [] = map (fun _ => b) (nth i g []).
Proof.
  revert i; induction g as [|r g IH]; intros [|i]; simpl; intros H; try lia; auto.
  apply IH. lia.
Qed.

Lemma set_row_other (g : list (list float)) (i j : nat) (b : float) :
  i <> j -> nth j (set_row g i b) [] = nth j g [].
Proof.
  revert i j; induction g as [|r g IH]; intros [|i] [|j]; simpl; intros H;
    try reflexivity; try lia.
  apply IH. lia.
Qed.

Lemma zeros_nth (r c i : nat) : i < r -> nth i (NP.zeros r c) [] = repeat 0%float c.
Proof.
  unfold NP.zeros. revert i; induction r as [|r IH]; intros [|i] H; simpl; try lia; auto.
  apply IH. lia.
Qed.

Lemma map_const_repeat {A B : Type} (b : B) (a : A) (n : nat) :
  map (fun _ => b) (repeat a n) = repeat b n.
Proof.
  induction n as [|n IH]; simpl; [reflexivity | now rewrite IH].
Qed.

Section Loop.

Context {N : Numerics}.

Lemma err_ranges_two_parameters (x y popt : list float) (pcov : list (list float))
    (alpha : float) (ci : list float) :
  err_ranges x y popt pcov alpha = Ok ci -> exists a b, popt = [a; b].
Proof.
  unfold err_ranges, exp_growth_star.
  destruct popt as [|a [|b [|? ?]]]; simpl; try discriminate. eauto.
Qed.

Lemma fit_row_ok (data : PD.frame (string * string) Z) (g g' : list (list float)) (i : nat) :
  fit_row data g i = Ok g' -> exists b, fitted data i b /\ g' = set_row g i b.
Proof.
  unfold fit_row. intros H.
  apply bind_ok in H as ([popt pcov] & Hfit & H).
  apply bind_ok in H as (ci & Hci & H).
  apply bind_ok in H as (b & Hb & H). injection H as <-.
  destruct (err_ranges_two_parameters _ _ _ _ _ Hci) as (a & b' & ->).
  injection Hb as <-. exists b'. split; [|reflexivity].
  exists a, pcov, ci. auto.
Qed.

Lemma fit_loop_ok (data : PD.frame (string * string) Z) (rows : list nat) :
  forall g G,
    fit_loop data rows g = Ok G ->
    NoDup rows ->
    (forall i, In i rows -> i < length g) ->
    length G = length g /\
    (forall j, ~ In j rows -> nth j G [] = nth j g []) /\
    (forall i, In i rows ->
       exists b, fitted data i b /\ nth i G [] = map (fun _ => b) (nth i g [])).
Proof.
  induction rows as [|i rows IH]; simpl; intros g G H Hnd Hlt.
  - injection H as <-. repeat split; auto. intros i [].
  - apply bind_ok in H as (g1 & Hrow & Hloop).
    apply fit_row_ok in Hrow as (b & Hb & ->).
    inversion Hnd as [|? ? Hi Hnd']; subst.
    destruct (IH _ _ Hloop Hnd') as (Hlen & Hout & Hin).
    { intros j Hj. rewrite set_row_length. apply Hlt. now right. }
    rewrite set_row_length in Hlen. split; [exact Hlen|]. split.
    + intros j Hj. rewrite Hout by tauto. apply set_row_other. tauto.
    + intros j [<-|Hj].
      * exists b. split; [exact Hb|]. rewrite Hout by exact Hi.
        apply set_row_same. apply Hlt. now left.
      * destruct (Hin j Hj) as (b' & Hb' & E). exists b'. split; [exact Hb'|].
        rewrite E. f_equal. apply set_row_other. intros ->. contradiction.
Qed.

(** The array the loop leaves: one row per row of the slice, each filled
    with the exponent fitted for that row. *)
Lemma fit_table_ok (data : PD.frame (string * string) Z) (G : list (list float)) :
  fit_table data = Ok G ->
  length G = fst (PD.shape data) /\
  forall i, i < fst (PD.shape data) ->
    exists b, fitted data i b /\ nth i G [] = repeat b (snd (PD.shape data)).
Proof.
  unfold fit_table. intros H.
  apply fit_loop_ok in H as (Hlen & _ & Hin).
  - unfold NP.zeros in Hlen. rewrite repeat_length in Hlen. split; [exact Hlen|].
    intros i Hi. destruct (Hin i) as (b & Hb & E); [apply in_seq; lia|].
    exists b. split; [exact Hb|].
    rewrite E, zeros_nth by exact Hi. apply map_const_repeat.
  - apply seq_NoDup.
  - intros i Hi. apply in_seq in Hi. unfold NP.zeros. rewrite repeat_length. lia.
Qed.

(** The loop reads the values of the slice and its shape, not its labels. *)
Lemma fit_table_values (data data' : PD.frame (string * string) Z) :
  length (PD.index data') = length (PD.index data) ->
  map snd (PD.cols data') = map snd (PD.cols data) ->
  fit_table data' = fit_table data.
Proof.
  intros Hi Hc.
  assert (Hshape : PD.shape data' = PD.shape data).
  { unfold PD.shape. rewrite Hi. f_equal.
    rewrite <- (length_map snd (PD.cols data')), Hc. apply length_map. }
  assert (Hiloc : forall i, PD.iloc data' i = PD.iloc data i).
  { intros i. unfold PD.iloc.
    rewrite <- (map_map snd (fun col => nth i col nan) (PD.cols data')), Hc.
    apply map_map. }
  assert (Hrow : forall g i, fit_row data' g i = fit_row data g i).
  { intros g i. unfold fit_row. now rewrite Hshape, Hiloc. }
  unfold fit_table. rewrite Hshape.
  generalize (NP.zeros (fst (PD.shape data)) (snd (PD.shape data))).
  induction (seq 0 (fst (PD.shape data))) as [|i rows IH]; intros g; simpl; [reflexivity|].
  rewrite Hrow. destruct (fit_row data g i); simpl; [apply IH | reflexivity].
Qed.

End Loop.

Lemma arange_nth (n k : nat) :
  k < n -> nth k (NP.arange n) nan = NP.of_int (Z.of_nat k).
Proof.
  intros H. unfold NP.arange.
  rewrite nth_indep with (d' := NP.of_int (Z.of_nat 0)) by (rewrite length_map, length_seq; lia).
  rewrite (map_nth (fun i => NP.of_int (Z.of_nat i))). now rewrite seq_nth.
Qed.

(** C7. In a successful [predict_future], for every row of the filtered
    slice with N year columns, the abscissas given to [curve_fit] are the
    zero-based column positions 0..N-1 (the year labels do not enter: two
    slices with the same values give the same result), the model fitted is
    a.e^(b.x), and the growth rate reported for the row is its exponent b. *)
Theorem growth_rate_is_exponent_on_positions {T : Tokens} {N : Numerics}
    (file : raw_table) (countries indicators : list string)
    (start_year end_year : Z) (growth_rate : list (list float)) :
  predict_future file countries indicators start_year end_year = Ok growth_rate ->
  exists data,
    filter_Methane_emission_data file countries indicators start_year end_year = Ok data /\
    (forall k, k < snd (PD.shape data) ->
       nth k (NP.arange (snd (PD.shape data))) nan = NP.of_int (Z.of_nat k)) /\
    (forall i, i < fst (PD.shape data) ->
       exists a b pcov,
         curve_fit exp_growth (NP.arange (snd (PD.shape data))) (PD.iloc data i)
         = Ok ([a; b], pcov) /\
         nth i growth_rate [] = repeat b (snd (PD.shape data))) /\
    (forall x a b, exp_growth x a b = PrimFloat.mul a (np_exp (PrimFloat.mul b x))) /\
    (forall data' : PD.frame (string * string) Z,
       length (PD.index data') = length (PD.index data) ->
       map snd (PD.cols data') = map snd (PD.cols data) ->
       fit_table data' = Ok growth_rate).
Proof.
  unfold predict_future. intros H.
  apply bind_ok in H as (data & Hdata & Hfit). exists data.
  split; [exact Hdata|]. split; [intros k Hk; now apply arange_nth|].
  split; [|split; [reflexivity|]].
  - intros i Hi. destruct (fit_table_ok _ Hfit) as [_ Hrows].
    destruct (Hrows i Hi) as (b & (a & pcov & ci & Hcf & _) & E).
    exists a, b, pcov. auto.
  - intros data' Hi Hc. rewrite <- Hfit. now apply fit_table_values.
Qed.

(** The row (India, CO2) of the bench table over 1990..1992. *)
Lemma growth_rate_is_exponent_on_positions_witness :
  exists data,
    filter_Methane_emission_data (T := Bench.decimal_tokens) Bench.table
      ["India"%string] ["CO2"%string] 1990 1992 = Ok data /\
    (forall k, k < snd (PD.shape data) ->
       nth k (NP.arange (snd (PD.shape data))) nan = NP.of_int (Z.of_nat k)) /\
    (forall i, i < fst (PD.shape data) ->
       exists a b pcov,
         curve_fit (Numerics := Bench.numerics) (exp_growth (N := Bench.numerics))
                   (NP.arange (snd (PD.shape data))) (PD.iloc data i)
         = Ok ([a; b], pcov) /\
         nth i [[0.5; 0.5; 0.5]]%float [] = repeat b (snd (PD.shape data))) /\
    (forall x a b, exp_growth (N := Bench.numerics) x a b
                   = PrimFloat.mul a (np_exp (Numerics := Bench.numerics)
                                             (PrimFloat.mul b x))) /\
    (forall data' : PD.frame (string * string) Z,
       length (PD.index data') = length (PD.index data) ->
       map snd (PD.cols data') = map snd (PD.cols data) ->
       fit_table (N := Bench.numerics) data' = Ok [[0.5; 0.5; 0.5]]%float).
Proof.
  apply (@growth_rate_is_exponent_on_positions Bench.decimal_tokens Bench.numerics
           Bench.table ["India"%string] ["CO2"%string] 1990%Z 1992%Z
           [[0.5; 0.5; 0.5]]%float).
  vm_compute. reflexivity.
Defined.

(** C10. The array [predict_future] returns is two-dimensional and has the
    shape of the filtered slice: one row per (country, indicator) key, one
    entry per selected year column; every entry of row i is the one exponent
    b fitted for that row. *)
Theorem growth_rate_shape {T : Tokens} {N : Numerics}
    (file : raw_table) (countries indicators : list string)
    (start_year end_year : Z) (growth_rate : list (list float)) :
  predict_future file countries indicators start_year end_year = Ok growth_rate ->
  exists data,
    filter_Methane_emission_data file countries indicators start_year end_year = Ok data /\
    length growth_rate = length (PD.index data) /\
    Forall (fun row => length row = length (PD.cols data)) growth_rate /\
    forall i, i < length (PD.index data) ->
      exists b, fitted data i b /\
                forall j, j < length (PD.cols data) ->
                          nth j (nth i growth_rate []) nan = b.
Proof.
  unfold predict_future. intros H.
  apply bind_ok in H as (data & Hdata & Hfit). exists data.
  destruct (fit_table_ok _ Hfit) as [Hlen Hrows]. cbn [PD.shape fst snd] in Hlen, Hrows.
  split; [exact Hdata|]. split; [exact Hlen|]. split.
  - apply Forall_forall. intros row Hrow.
    destruct (In_nth _ _ [] Hrow) as (i & Hi & <-).
    destruct (Hrows i) as (b & _ & ->); [lia|]. apply repeat_length.
  - intros i Hi. destruct (Hrows i Hi) as (b & Hb & ->).
    exists b. split; [exact Hb|]. intros j Hj.
    now rewrite nth_repeat_lt.
Qed.

(** Two rows of the bench table over 1990..1991. *)
Lemma growth_rate_shape_witness :
  exists data,
    filter_Methane_emission_data (T := Bench.decimal_tokens) Bench.table
      ["India"; "Japan"]%string ["CO2"; "CH4"]%string 1990 1991 = Ok data /\
    length [[0.5; 0.5]; [0x1.2492492492492p-3; 0x1.2492492492492p-3]]%float
    = length (PD.index data) /\
    Forall (fun row => length row = length (PD.cols data))
           [[0.5; 0.5]; [0x1.2492492492492p-3; 0x1.2492492492492p-3]]%float /\
    forall i, i < length (PD.index data) ->
      exists b, fitted (N := Bench.numerics) data i b /\
                forall j, j < length (PD.cols data) ->
                  nth j (nth i [[0.5; 0.5]; [0x1.2492492492492p-3; 0x1.2492492492492p-3]]%float [])
                      nan = b.
Proof.
  apply (@growth_rate_shape Bench.decimal_tokens Bench.numerics
           Bench.table ["India"; "Japan"]%string ["CO2"; "CH4"]%string 1990%Z 1991%Z
           [[0.5; 0.5]; [0x1.2492492492492p-3; 0x1.2492492492492p-3]]%float).
  vm_compute. reflexivity.
Defined.

(** ** The half-widths and the value returned *)

Lemma bind_raised {A B C : Type} (r : result A) (r' : result B) (k : result C) :
  raised r = raised r' -> bind r (fun _ => k) = bind r' (fun _ => k).
Proof.
  destruct r, r'; simpl; intros H; try discriminate; [reflexivity | now injection H as ->].
Qed.

Section Quantile.

Context {N : Numerics}.
Variable quantile : float -> Z -> float.

(** Whether [err_ranges] raises is decided before the quantile is used. *)
Lemma err_ranges_raised (x y popt : list float) (pcov : list (list float)) (alpha : float) :
  raised (err_ranges (N := with_quantile quantile N) x y popt pcov alpha)
  = raised (err_ranges (N := N) x y popt pcov alpha).
Proof.
  unfold err_ranges.
  change (exp_growth_star (N := with_quantile quantile N) x popt)
    with (exp_growth_star (N := N) x popt).
  destruct (exp_growth_star x popt) as [model|e]; simpl; [|reflexivity].
  destruct (NP.subtract y model); reflexivity.
Qed.

Lemma fit_row_quantile (data : PD.frame (string * string) Z) (g : list (list float)) (i : nat) :
  fit_row (N := with_quantile quantile N) data g i = fit_row (N := N) data g i.
Proof.
  unfold fit_row.
  change (curve_fit (Numerics := with_quantile quantile N)
            (exp_growth (N := with_quantile quantile N)))
    with (curve_fit (Numerics := N) (exp_growth (N := N))).
  destruct (curve_fit exp_growth _ _) as [[popt pcov]|e]; simpl; [|reflexivity].
  apply bind_raised, err_ranges_raised.
Qed.

Lemma fit_table_quantile (data : PD.frame (string * string) Z) :
  fit_table (N := with_quantile quantile N) data = fit_table (N := N) data.
Proof.
  unfold fit_table. generalize (NP.zeros (fst (PD.shape data)) (snd (PD.shape data))).
  induction (seq 0 (fst (PD.shape data))) as [|i rows IH]; intros g; simpl; [reflexivity|].
  rewrite fit_row_quantile. destruct (fit_row data g i); simpl; [apply IH | reflexivity].
Qed.

End Quantile.

Lemma fitted_row_ci {N : Numerics} (data : PD.frame (string * string) Z) (i : nat) (b : float) :
  fitted data i b -> exists ci, row_ci data i = Ok ci.
Proof.
  intros (a & pcov & ci & Hfit & Hci). exists ci.
  unfold row_ci. rewrite Hfit. exact Hci.
Qed.

(** C8, as the code has it. In a successful [predict_future] the confidence
    half-widths are computed for every row, but the value delivered is the
    growth-rate array alone, each row filled with the row's exponent: the
    half-widths are not part of it, and another quantile function (other
    half-widths) gives the same result. *)
Theorem confidence_interval_not_delivered {T : Tokens} {N : Numerics}
    (quantile : float -> Z -> float)
    (file : raw_table) (countries indicators : list string) (start_year end_year : Z) :
  predict_future (N := with_quantile quantile N) file countries indicators start_year end_year
  = predict_future (N := N) file countries indicators start_year end_year /\
  forall growth_rate,
    predict_future file countries indicators start_year end_year = Ok growth_rate ->
    exists data,
      filter_Methane_emission_data file countries indicators start_year end_year = Ok data /\
      length growth_rate = length (PD.index data) /\
      forall i, i < length (PD.index data) ->
        exists b ci, row_ci data i = Ok ci /\
                     nth i growth_rate [] = repeat b (length (PD.cols data)).
Proof.
  split.
  - unfold predict_future.
    destruct (filter_Methane_emission_data _ _ _ _ _) as [data|e]; simpl; [|reflexivity].
    apply fit_table_quantile.
  - unfold predict_future. intros G H.
    apply bind_ok in H as (data & Hdata & Hfit). exists data.
    destruct (fit_table_ok _ Hfit) as [Hlen Hrows]. cbn [PD.shape fst snd] in Hlen, Hrows.
    split; [exact Hdata|]. split; [exact Hlen|].
    intros i Hi. destruct (Hrows i Hi) as (b & Hb & E).
    destruct (fitted_row_ci Hb) as [ci Hci]. exists b, ci. auto.
Qed.

(** C8, as stated, fails: for the row (India, CO2) over 1990..1992 two
    quantile functions give different half-widths, and [predict_future]
    returns the same array [[0.5; 0.5; 0.5]] under both: the half-widths are
    not in what the caller receives. *)
Lemma predict_future_omits_ci :
  exists data ci ci',
    filter_Methane_emission_data (T := Bench.decimal_tokens) Bench.table
      ["India"%string] ["CO2"%string] 1990 1992 = Ok data /\
    row_ci (N := Bench.numerics) data 0 = Ok ci /\
    row_ci (N := with_quantile Bench.t_flat Bench.numerics) data 0 = Ok ci' /\
    ci <> ci' /\
    predict_future (T := Bench.decimal_tokens) (N := Bench.numerics) Bench.table
      ["India"%string] ["CO2"%string] 1990 1992 = Ok [[0.5; 0.5; 0.5]]%float /\
    predict_future (T := Bench.decimal_tokens)
      (N := with_quantile Bench.t_flat Bench.numerics) Bench.table
      ["India"%string] ["CO2"%string] 1990 1992 = Ok [[0.5; 0.5; 0.5]]%float.
Proof.
  do 3 eexists.
  split; [vm_compute; reflexivity|].
  split; [vm_compute; reflexivity|].
  split; [vm_compute; reflexivity|].
  split; [|split; vm_compute; reflexivity].
  intros H. apply (f_equal (hd nan)) in H. float_discr H.
Qed.

(** * Further properties *)

(** ** How [err_ranges] ends *)

Lemma subtract_outcome (a b : list float) :
  (length a = length b \/ length a = 1 \/ length b = 1 ->
   exists d, NP.subtract a b = Ok d) /\
  (length a <> length b -> length a <> 1 -> length b <> 1 ->
   NP.subtract a b = Raise ValueError).
Proof.
  unfold NP.subtract. destruct (Nat.eqb_spec (length a) (length b)) as [E|E].
  - split; [eauto | contradiction].
  - split.
    + intros [H|[H|H]]; [contradiction| |].
      * destruct a as [|u [|? ?]]; try discriminate. eauto.
      * destruct b as [|v [|? ?]]; try discriminate.
        destruct a as [|u [|? ?]]; eauto.
    + intros _ Ha Hb.
      destruct a as [|u [|u' a]]; [|simpl in Ha; contradiction|];
        destruct b as [|v [|v' b]]; try reflexivity; simpl in Hb; contradiction.
Qed.

(** X1. [err_ranges] ends in one of three ways, decided by the shapes of
    its arguments alone: a [TypeError] when [popt] does not hold exactly the
    two model parameters, a [ValueError] when [xdata] and [ydata] have
    different lengths and neither has length one, and otherwise one
    half-width per diagonal entry of [pcov]. *)
Theorem err_ranges_outcome {N : Numerics} (xdata ydata popt : list float)
    (pcov : list (list float)) (alpha : float) :
  (length popt <> 2 ->
   err_ranges xdata ydata popt pcov alpha = Raise TypeError) /\
  (length popt = 2 ->
   length xdata <> length ydata -> length xdata <> 1 -> length ydata <> 1 ->
   err_ranges xdata ydata popt pcov alpha = Raise ValueError) /\
  (length popt = 2 ->
   length xdata = length ydata \/ length xdata = 1 \/ length ydata = 1 ->
   exists ci, err_ranges xdata ydata popt pcov alpha = Ok ci /\
              length ci = length (NP.diag pcov)).
Proof.
  split; [apply err_ranges_arity|].
  unfold err_ranges, exp_growth_star. split; intros Hm.
  - intros Hxy Hx Hy.
    destruct popt as [|a [|b [|? ?]]]; try discriminate. cbn [bind].
    destruct (subtract_outcome ydata (map (fun x => exp_growth x a b) xdata)) as [_ H].
    rewrite H; [reflexivity| | |]; rewrite ?length_map; auto.
  - intros Hshape.
    destruct popt as [|a [|b [|? ?]]]; try discriminate. cbn [bind].
    destruct (subtract_outcome ydata (map (fun x => exp_growth x a b) xdata)) as [H _].
    destruct H as [d ->]; [rewrite length_map; intuition auto|].
    cbn [bind]. eexists. split; [reflexivity|].
    unfold NP.scale. now rewrite !length_map.
Qed.

(** ** When [predict_future] returns and when it does not *)

Section BatchOutcome.

Context {N : Numerics}.

Lemma arange_length (n : nat) : length (NP.arange n) = n.
Proof.
  unfold NP.arange. now rewrite length_map, length_seq.
Qed.

Lemma iloc_length {R C : Type} (f : PD.frame R C) (i : nat) :
  length (PD.iloc f i) = length (PD.cols f).
Proof.
  unfold PD.iloc. apply length_map.
Qed.

(** After a two-parameter fit of a row the half-widths never fail: the
    abscissas and the row have the same length. *)
Lemma fit_row_fitted (data : PD.frame (string * string) Z) (g : list (list float))
    (i : nat) (a b : float) (pcov : list (list float)) :
  curve_fit exp_growth (NP.arange (snd (PD.shape data))) (PD.iloc data i)
  = Ok ([a; b], pcov) ->
  fit_row data g i = Ok (set_row g i b).
Proof.
  intros H. unfold fit_row. rewrite H. cbn [bind].
  rewrite err_ranges_unfold
    by (rewrite arange_length, iloc_length; reflexivity).
  reflexivity.
Qed.

Lemma fit_row_raise (data : PD.frame (string * string) Z) (g : list (list float))
    (i : nat) (e : exn) :
  curve_fit exp_growth (NP.arange (snd (PD.shape data))) (PD.iloc data i) = Raise e ->
  fit_row data g i = Raise e.
Proof.
  intros H. unfold fit_row. now rewrite H.
Qed.

Lemma fit_loop_succeeds (data : PD.frame (string * string) Z) (rows : list nat) :
  (forall i, In i rows ->
     exists a b pcov,
       curve_fit exp_growth (NP.arange (snd (PD.shape data))) (PD.iloc data i)
       = Ok ([a; b], pcov)) ->
  forall g, exists G, fit_loop data rows g = Ok G.
Proof.
  induction rows as [|i rows IH]; intros H g; simpl; [eauto|].
  destruct (H i) as (a & b & pcov & Hfit); [now left|].
  rewrite (fit_row_fitted _ _ _ Hfit). cbn [bind].
  apply IH. intros j Hj. apply H. now right.
Qed.

(** The loop stops at the first row whose fit raises. *)
Lemma fit_loop_first_failure (data : PD.frame (string * string) Z) (e : exn) :
  forall (n k i : nat) (g : list (list float)),
    k <= i < k + n ->
    curve_fit exp_growth (NP.arange (snd (PD.shape data))) (PD.iloc data i) = Raise e ->
    (exists e', fit_loop data (seq k n) g = Raise e') /\
    ((forall j, k <= j < i ->
        exists a b pcov,
          curve_fit exp_growth (NP.arange (snd (PD.shape data))) (PD.iloc data j)
          = Ok ([a; b], pcov)) ->
     fit_loop data (seq k n) g = Raise e).
Proof.
  induction n as [|n IH]; intros k i g Hi Hfail; [lia|]. simpl.
  destruct (Nat.eq_dec k i) as [->|Hne].
  - rewrite (fit_row_raise _ _ _ Hfail). cbn [bind]. split; eauto.
  - destruct (fit_row data g k) as [g'|e'] eqn:E; cbn [bind].
    + destruct (IH (S k) i g') as [H1 H2]; [lia | exact Hfail |].
      split; [exact H1|]. intros Hbefore. apply H2. intros j Hj. apply Hbefore. lia.
    + split; [eauto|]. intros Hbefore.
      destruct (Hbefore k) as (a & b & pcov & Hfit); [lia|].
      rewrite (fit_row_fitted _ _ _ Hfit) in E. discriminate.
Qed.

End BatchOutcome.

(** X2. [predict_future] returns whenever [curve_fit] returns two parameters
    for every row of the filtered slice: nothing else in the batch can fail
    (the half-widths are computed on abscissas and a row of equal length). *)
Theorem predict_future_returns {T : Tokens} {N : Numerics}
    (file : raw_table) (countries indicators : list string) (start_year end_year : Z)
    (data : PD.frame (string * string) Z) :
  filter_Methane_emission_data file countries indicators start_year end_year = Ok data ->
  (forall i, i < length (PD.index data) ->
     exists a b pcov,
       curve_fit exp_growth (NP.arange (length (PD.cols data))) (PD.iloc data i)
       = Ok ([a; b], pcov)) ->
  exists growth_rate,
    predict_future file countries indicators start_year end_year = Ok growth_rate.
Proof.
  intros Hdata Hfit. unfold predict_future. rewrite Hdata. cbn [bind].
  unfold fit_table. apply fit_loop_succeeds.
  intros i Hi. apply in_seq in Hi. apply Hfit. cbn [PD.shape fst] in Hi. lia.
Qed.

(** The rows (India, CO2) and (Japan, CH4) of the bench table. *)
Lemma predict_future_returns_witness :
  exists growth_rate,
    predict_future (T := Bench.decimal_tokens) (N := Bench.numerics) Bench.table
      ["India"; "Japan"]%string ["CO2"; "CH4"]%string 1990 1992 = Ok growth_rate.
Proof.
  apply (@predict_future_returns Bench.decimal_tokens Bench.numerics Bench.table
           ["India"; "Japan"]%string ["CO2"; "CH4"]%string 1990%Z 1992%Z
           {| PD.index := [("India", "CO2"); ("Japan", "CH4")]%string;
              PD.cols := [(1990%Z, [2; 7]%float); (1991%Z, [3; 8]%float);
                          (1992%Z, [4.5; 9]%float)] |}).
  - vm_compute. reflexivity.
  - intros i Hi. cbn [PD.index length] in Hi.
    destruct i as [|[|i]]; [| |lia]; do 3 eexists; vm_compute; reflexivity.
Defined.

(** X3. One failing row aborts the whole batch: if [curve_fit] raises on a
    row of the filtered slice, [predict_future] raises and returns no array,
    and when the rows before it were fitted the exception is that row's. *)
Theorem predict_future_aborts {T : Tokens} {N : Numerics}
    (file : raw_table) (countries indicators : list string) (start_year end_year : Z)
    (data : PD.frame (string * string) Z) (i : nat) (e : exn) :
  filter_Methane_emission_data file countries indicators start_year end_year = Ok data ->
  i < length (PD.index data) ->
  curve_fit exp_growth (NP.arange (length (PD.cols data))) (PD.iloc data i) = Raise e ->
  (exists e', predict_future file countries indicators start_year end_year = Raise e') /\
  ((forall j, j < i ->
      exists a b pcov,
        curve_fit exp_growth (NP.arange (length (PD.cols data))) (PD.iloc data j)
        = Ok ([a; b], pcov)) ->
   predict_future file countries indicators start_year end_year = Raise e).
Proof.
  intros Hdata Hi Hfail. unfold predict_future. rewrite Hdata. cbn [bind].
  unfold fit_table. cbn [PD.shape fst snd].
  destruct (@fit_loop_first_failure N data e (length (PD.index data)) 0 i
              (NP.zeros (length (PD.index data)) (length (PD.cols data))))
    as [H1 H2]; [lia | exact Hfail |].
  split; [exact H1|]. intros Hbefore. apply H2. intros j Hj. apply Hbefore. lia.
Qed.

(** The row (China, CO2) of the bench table has no value for 1991. *)
Lemma predict_future_aborts_witness :
  (exists e', predict_future (T := Bench.decimal_tokens) (N := Bench.numerics) Bench.table
                ["India"; "China"]%string ["CO2"%string] 1990 1992 = Raise e') /\
  ((forall j, j < 0 ->
      exists a b pcov,
        curve_fit (Numerics := Bench.numerics) (exp_growth (N := Bench.numerics))
          (NP.arange 3) (PD.iloc {| PD.index := [("China", "CO2"); ("India", "CO2")]%string;
                                    PD.cols := [(1990%Z, [5; 2]%float); (1991%Z, [nan; 3]%float);
                                                (1992%Z, [6; 4.5]%float)] |} j)
        = Ok ([a; b], pcov)) ->
   predict_future (T := Bench.decimal_tokens) (N := Bench.numerics) Bench.table
     ["India"; "China"]%string ["CO2"%string] 1990 1992 = Raise ValueError).
Proof.
  apply (@predict_future_aborts Bench.decimal_tokens Bench.numerics Bench.table
           ["India"; "China"]%string ["CO2"%string] 1990%Z 1992%Z
           {| PD.index := [("China", "CO2"); ("India", "CO2")]%string;
              PD.cols := [(1990%Z, [5; 2]%float); (1991%Z, [nan; 3]%float);
                          (1992%Z, [6; 4.5]%float)] |} 0 ValueError).
  - vm_compute. reflexivity.
  - cbn. lia.
  - vm_compute. reflexivity.
Defined.

(** X4. The growth rate reported for a row depends on the values of that row
    and on the number of year columns only: in two successful batches, rows
    with the same values over the same number of columns get the same
    growth-rate row, whatever the other rows of either batch are. *)
Theorem growth_rate_row_by_row {T : Tokens} {N : Numerics}
    (file file' : raw_table) (countries countries' indicators indicators' : list string)
    (start_year end_year start_year' end_year' : Z)
    (data data' : PD.frame (string * string) Z)
    (growth_rate growth_rate' : list (list float)) (i i' : nat) :
  filter_Methane_emission_data file countries indicators start_year end_year = Ok data ->
  filter_Methane_emission_data file' countries' indicators' start_year' end_year' = Ok data' ->
  predict_future file countries indicators start_year end_year = Ok growth_rate ->
  predict_future file' countries' indicators' start_year' end_year' = Ok growth_rate' ->
  i < length (PD.index data) ->
  i' < length (PD.index data') ->
  PD.iloc data i = PD.iloc data' i' ->
  nth i growth_rate [] = nth i' growth_rate' [].
Proof.
  intros Hd Hd' Hp Hp' Hi Hi' Hrow. unfold predict_future in Hp, Hp'.
  rewrite Hd in Hp. rewrite Hd' in Hp'. cbn [bind] in Hp, Hp'.
  destruct (fit_table_ok _ Hp) as [_ Hrows]. destruct (fit_table_ok _ Hp') as [_ Hrows'].
  cbn [PD.shape fst snd] in Hrows, Hrows'.
  destruct (Hrows i Hi) as (b & (a & pcov & ci & Hfit & _) & ->).
  destruct (Hrows' i' Hi') as (b' & (a' & pcov' & ci' & Hfit' & _) & ->).
  assert (Hn : length (PD.cols data) = length (PD.cols data'))
    by (rewrite <- (iloc_length data i), <- (iloc_length data' i'); now rewrite Hrow).
  cbn [PD.shape snd] in Hfit, Hfit'.
  rewrite Hrow, Hn, Hfit' in Hfit. injection Hfit as -> -> ->. now rewrite Hn.
Qed.

(** The row (India, CO2) alone and beside (Japan, CH4). *)
Lemma growth_rate_row_by_row_witness :
  nth 0 [[0.5; 0.5; 0.5]]%float []
  = nth 0 [[0.5; 0.5; 0.5];
           [0x1.2492492492492p-3; 0x1.2492492492492p-3; 0x1.2492492492492p-3]]%float [].
Proof.
  apply (@growth_rate_row_by_row Bench.decimal_tokens Bench.numerics Bench.table Bench.table
           ["India"%string] ["India"; "Japan"]%string ["CO2"%string] ["CO2"; "CH4"]%string
           1990%Z 1992%Z 1990%Z 1992%Z
           {| PD.index := [("India", "CO2")]%string;
              PD.cols := [(1990%Z, [2]%float); (1991%Z, [3]%float); (1992%Z, [4.5]%float)] |}
           {| PD.index := [("India", "CO2"); ("Japan", "CH4")]%string;
              PD.cols := [(1990%Z, [2; 7]%float); (1991%Z, [3; 8]%float);
                          (1992%Z, [4.5; 9]%float)] |});
    try (vm_compute; reflexivity); cbn; lia.
Defined.

(** ** The long table, record by record *)

Lemma combine_map_map {A B C : Type} (f : A -> B) (g : A -> C) (l : list A) :
  combine (map f l) (map g l) = map (fun x => (f x, g x)) l.
Proof.
  induction l as [|a l IH]; simpl; [reflexivity | now rewrite IH].
Qed.

Lemma combine_app_same {A B : Type} (a b : list A) (a' b' : list B) :
  length a = length a' -> combine (a ++ b) (a' ++ b') = combine a a' ++ combine b b'.
Proof.
  revert a'; induction a as [|x a IH]; intros [|y a'] H; try discriminate; simpl; [reflexivity|].
  f_equal. apply IH. simpl in H. lia.
Qed.

Lemma combine_flat_map {X A B : Type} (f : X -> list A) (g : X -> list B) (l : list X) :
  (forall x, length (f x) = length (g x)) ->
  combine (flat_map f l) (flat_map g l) = flat_map (fun x => combine (f x) (g x)) l.
Proof.
  intros H. induction l as [|x l IH]; simpl; [reflexivity|].
  rewrite combine_app_same by apply H. now rewrite IH.
Qed.

Lemma map_flat_map {X A B : Type} (h : A -> B) (f : X -> list A) (l : list X) :
  map h (flat_map f l) = flat_map (fun x => map h (f x)) l.
Proof.
  induction l as [|x l IH]; simpl; [reflexivity|]. now rewrite map_app, IH.
Qed.

Lemma flat_map_nothing {X A : Type} (f : X -> list A) (l : list X) :
  (forall x, f x = []) -> flat_map f l = [].
Proof.
  intros H. induction l as [|x l IH]; simpl; [reflexivity|]. now rewrite H, IH.
Qed.

Section LongRecords.

Context {T : Tokens}.

(** The four columns of the coerced long table, read side by side. *)
Lemma long_records_zip (w : wide_table) :
  combine (combine (combine (long_Country (coerced_table (melt w)))
                            (long_Indicator_Name (coerced_table (melt w))))
                   (long_Year (coerced_table (melt w))))
          (long_Value (coerced_table (melt w)))
  = long_records w.
Proof.
  unfold coerced_table, melt, long_records.
  cbn [long_Country long_Indicator_Name long_Year long_Value].
  rewrite !map_flat_map.
  rewrite combine_flat_map by (intros; now rewrite !length_map).
  rewrite combine_flat_map by (intros; now rewrite length_combine, !length_map, Nat.min_id).
  rewrite combine_flat_map
    by (intros; now rewrite !length_combine, !length_map, !Nat.min_id).
  apply flat_map_ext. intros jl.
  rewrite combine_map_map, !map_map, combine_map_map, combine_map_map. reflexivity.
Qed.

Lemma coerce_coerced (l : long_table string PD.cell) : coerce l = Ok (coerced_table l).
Proof.
  apply coerce_ok.
Qed.

Lemma filter_unfold (file : raw_table) (countries indicators : list string)
    (start_year end_year : Z) :
  filter_Methane_emission_data file countries indicators start_year end_year
  = Ok (PD.loc_slice
          (pivot_years (coerced_table
             (melt (filter_rows countries indicators (drop_and_rename file)))))
          start_year end_year).
Proof.
  unfold filter_Methane_emission_data. now rewrite coerce_coerced.
Qed.

Lemma data_read_unfold (file : raw_table) :
  data_read file
  = Ok (pivot_years (coerced_table (melt (drop_and_rename file))),
        pivot_countries (coerced_table (melt (drop_and_rename file)))).
Proof.
  unfold data_read. rewrite coerce_coerced. cbn [bind].
  unfold pivot_years, pivot_countries. now rewrite !pivot_table_dropna.
Qed.

Lemma pivot_years_records (w : wide_table) :
  pivot_years (coerced_table (melt w))
  = PD.pivot_table cmp_key Z.compare
      (map (fun e => match e with (c, i, y, v) => (Some (c, i), y, v) end)
           (long_records w)).
Proof.
  unfold pivot_years. now rewrite long_records_zip.
Qed.

Lemma pivot_countries_records (w : wide_table) :
  pivot_countries (coerced_table (melt w))
  = PD.pivot_table cmp_year_key String.compare
      (map (fun e => match e with
                     | (c, i, y, v) => (option_map (fun y' => (y', i)) y, Some c, v)
                     end)
           (long_records w)).
Proof.
  unfold pivot_countries. now rewrite long_records_zip.
Qed.

End LongRecords.

Lemma isin_In (s : string) (values : list string) : isin s values = true <-> In s values.
Proof.
  apply occurs_In.
Qed.

(** X5. When no row of the file carries both a requested country and a
    requested indicator, [predict_future] raises nothing: it returns the
    empty array, without a single call of the fitter. *)
Theorem predict_future_no_rows {T : Tokens} {N : Numerics}
    (file : raw_table) (countries indicators : list string) (start_year end_year : Z) :
  (forall r, In r (raw_rows file) ->
             ~ (In (country_name r) countries /\ In (indicator_name r) indicators)) ->
  predict_future file countries indicators start_year end_year = Ok [].
Proof.
  intros Hnone. unfold predict_future. rewrite filter_unfold. cbn [bind].
  rewrite pivot_years_records.
  assert (Hrows : wide_rows (filter_rows countries indicators (drop_and_rename file)) = []).
  { cbn. apply filter_nothing. intros w Hw. apply in_map_iff in Hw as (r & <- & Hr). cbn.
    destruct (isin (country_name r) countries) eqn:Ec; [|reflexivity].
    destruct (isin (indicator_name r) indicators) eqn:Ei; [|reflexivity].
    exfalso. apply (Hnone r Hr). split; now apply isin_In. }
  unfold long_records. rewrite Hrows.
  rewrite flat_map_nothing by reflexivity. reflexivity.
Qed.

(** No row of the bench table is about Peru. *)
Lemma predict_future_no_rows_witness :
  predict_future (T := Bench.decimal_tokens) (N := Bench.numerics) Bench.table
    ["Peru"%string] ["CO2"%string] 1990 1992 = Ok [].
Proof.
  apply (@predict_future_no_rows Bench.decimal_tokens Bench.numerics Bench.table
           ["Peru"%string] ["CO2"%string] 1990%Z 1992%Z).
  intros r Hr [Hc _]. cbn in Hr, Hc.
  destruct Hr as [<-|[<-|[<-|[]]]]; cbn in Hc; destruct Hc as [Hc|[]]; discriminate Hc.
Defined.

(** X6. [filter_Methane_emission_data] reads the requested countries and
    indicators as sets over the labels of the file: two requests that agree
    on every country and indicator of the file give the same slice, so the
    order and the repeats of a request do not matter, and a requested label
    that the file does not hold is left out without an error. *)
Theorem filter_request_as_set {T : Tokens} (file : raw_table)
    (countries countries' indicators indicators' : list string)
    (start_year end_year : Z) :
  (forall r, In r (raw_rows file) ->
             (In (country_name r) countries <-> In (country_name r) countries')) ->
  (forall r, In r (raw_rows file) ->
             (In (indicator_name r) indicators <-> In (indicator_name r) indicators')) ->
  filter_Methane_emission_data file countries indicators start_year end_year
  = filter_Methane_emission_data file countries' indicators' start_year end_year.
Proof.
  intros Hc Hi. rewrite !filter_unfold. do 5 f_equal.
  unfold filter_rows. f_equal. cbn [wide_rows drop_and_rename].
  apply filter_ext_in. intros w Hw. apply in_map_iff in Hw as (r & <- & Hr). cbn.
  assert (Ec : isin (country_name r) countries = isin (country_name r) countries').
  { apply eq_true_iff_eq. rewrite !isin_In. now apply Hc. }
  assert (Ei : isin (indicator_name r) indicators = isin (indicator_name r) indicators').
  { apply eq_true_iff_eq. rewrite !isin_In. now apply Hi. }
  now rewrite Ec, Ei.
Qed.

(** Peru is not in the bench table, and India may be named twice. *)
Lemma filter_request_as_set_witness :
  filter_Methane_emission_data (T := Bench.decimal_tokens) Bench.table
    ["Peru"; "India"; "India"]%string ["CO2"%string] 1990 1992
  = filter_Methane_emission_data (T := Bench.decimal_tokens) Bench.table
      ["India"%string] ["CO2"%string] 1990 1992.
Proof.
  apply (@filter_request_as_set Bench.decimal_tokens Bench.table
           ["Peru"; "India"; "India"]%string ["India"%string]
           ["CO2"%string] ["CO2"%string] 1990%Z 1992%Z).
  - intros r Hr. cbn in Hr. destruct Hr as [<-|[<-|[<-|[]]]]; cbn;
      split; intros H; intuition discriminate.
  - intros r Hr. tauto.
Defined.

(** ** Sorted, duplicate-free labels *)

Section SortedLabels.

Context {K : Type} (cmp : K -> K -> comparison).

Let lt (a b : K) : Prop := cmp a b = Lt.

Lemma insert_In_any (x z : K) (l : list K) :
  In z (PD.insert cmp x l) -> z = x \/ In z l.
Proof.
  induction l as [|y l IH]; simpl.
  - intros [<-|[]]. now left.
  - destruct (cmp x y); simpl; intros H.
    + now right.
    + destruct H as [<-|H]; [now left | now right].
    + destruct H as [<-|H]; [right; now left|].
      destruct (IH H) as [->|Hin]; [now left | right; now right].
Qed.

Lemma sort_uniq_In (z : K) (l : list K) : In z (PD.sort_uniq cmp l) -> In z l.
Proof.
  induction l as [|x l IH]; simpl; [tauto|].
  intros H. apply insert_In_any in H as [->|H]; auto.
Qed.

Hypothesis laws : order_laws cmp.

Lemma insert_keeps (x z : K) (l : list K) :
  z = x \/ In z l -> In z (PD.insert cmp x l).
Proof.
  induction l as [|y l IH]; simpl.
  - intros [->|[]]. now left.
  - destruct (cmp x y) eqn:E; simpl; intros H.
    + apply (cmp_eq laws) in E. subst y. destruct H as [->|H]; [now left | exact H].
    + destruct H as [->|H]; [now left | now right].
    + destruct H as [->|[->|H]]; [right; apply IH; now left | now left | right; apply IH; now right].
Qed.

Lemma sort_uniq_keeps (z : K) (l : list K) : In z l -> In z (PD.sort_uniq cmp l).
Proof.
  induction l as [|x l IH]; simpl; [tauto|].
  intros [->|H]; apply insert_keeps; [now left | right; auto].
Qed.

Lemma insert_increasing (x : K) (l : list K) :
  StronglySorted lt l -> StronglySorted lt (PD.insert cmp x l).
Proof.
  induction 1 as [|y l Hs IH Hy]; simpl.
  - repeat constructor.
  - destruct (cmp x y) eqn:E.
    + now constructor.
    + constructor; [now constructor|].
      constructor; [exact E|]. eapply Forall_impl; [|exact Hy].
      intros a Ha. exact (cmp_trans laws _ _ _ E Ha).
    + assert (Hyx : lt y x).
      { unfold lt. rewrite (cmp_antisym laws), E. reflexivity. }
      constructor; [exact IH|].
      apply Forall_forall. intros z Hz. apply insert_In_any in Hz as [->|Hz]; [exact Hyx|].
      rewrite Forall_forall in Hy. now apply Hy.
Qed.

Lemma sort_uniq_increasing (l : list K) : StronglySorted lt (PD.sort_uniq cmp l).
Proof.
  induction l as [|x l IH]; simpl; [constructor | now apply insert_increasing].
Qed.

Lemma increasing_NoDup (l : list K) : StronglySorted lt l -> NoDup l.
Proof.
  induction 1 as [|y l Hs IH Hy]; constructor; [|exact IH].
  intros Hin. rewrite Forall_forall in Hy. specialize (Hy y Hin).
  unfold lt in Hy. rewrite (cmp_refl laws) in Hy. discriminate.
Qed.

End SortedLabels.

Lemma increasing_filter_labels {K X : Type} (lt : K -> K -> Prop) (p : K * X -> bool)
    (l : list (K * X)) :
  StronglySorted lt (map fst l) -> StronglySorted lt (map fst (filter p l)).
Proof.
  induction l as [|c l IH]; simpl; intros H; [constructor|].
  inversion H as [|? ? Hs Hc]; subst.
  destruct (p c); simpl; [|now apply IH].
  constructor; [now apply IH|].
  apply Forall_forall. intros z Hz. apply in_map_iff in Hz as (c' & <- & Hc').
  apply filter_In in Hc' as [Hc' _]. rewrite Forall_forall in Hc.
  apply Hc. now apply in_map.
Qed.

Lemma Z_compare_laws : order_laws Z.compare.
Proof.
  split.
  - apply Z.compare_refl.
  - apply Z.compare_eq.
  - intros x y. apply Z.compare_antisym.
  - intros x y z H1 H2. apply Z.compare_lt_iff.
    pose proof (proj1 (Z.compare_lt_iff x y) H1). pose proof (proj1 (Z.compare_lt_iff y z) H2).
    lia.
Qed.

Lemma ascii_compare_refl (a : ascii) : Ascii.compare a a = Eq.
Proof.
  unfold Ascii.compare. apply N.compare_refl.
Qed.

Lemma ascii_compare_trans (a b c : ascii) :
  Ascii.compare a b = Lt -> Ascii.compare b c = Lt -> Ascii.compare a c = Lt.
Proof.
  unfold Ascii.compare. rewrite !N.compare_lt_iff. apply N.lt_trans.
Qed.

Lemma string_compare_laws : order_laws String.compare.
Proof.
  split.
  - induction x as [|a x IH]; simpl; [reflexivity|]. now rewrite ascii_compare_refl.
  - apply String.compare_eq_iff.
  - apply String.compare_antisym.
  - induction x as [|a x IH]; intros [|b y] [|c z]; simpl; try discriminate; auto.
    destruct (Ascii.compare a b) eqn:Eab; try discriminate;
      destruct (Ascii.compare b c) eqn:Ebc; try discriminate; intros H1 H2.
    + apply Ascii.compare_eq_iff in Eab, Ebc. subst. rewrite ascii_compare_refl. eauto.
    + apply Ascii.compare_eq_iff in Eab. subst. now rewrite Ebc.
    + apply Ascii.compare_eq_iff in Ebc. subst. now rewrite Eab.
    + now rewrite (ascii_compare_trans _ _ _ Eab Ebc).
Qed.

Lemma cmp_pair_laws {A B : Type} (ca : A -> A -> comparison) (cb : B -> B -> comparison) :
  order_laws ca -> order_laws cb -> order_laws (PD.cmp_pair ca cb).
Proof.
  intros La Lb. unfold PD.cmp_pair. split.
  - intros [a b]. simpl. now rewrite (cmp_refl La), (cmp_refl Lb).
  - intros [a b] [a' b']. simpl. destruct (ca a a') eqn:E; try discriminate.
    intros H. apply (cmp_eq La) in E. apply (cmp_eq Lb) in H. now subst.
  - intros [a b] [a' b']. simpl. rewrite (cmp_antisym La a a').
    destruct (ca a' a); simpl; [apply (cmp_antisym Lb) | reflexivity | reflexivity].
  - intros [a b] [a' b'] [a'' b'']. simpl.
    destruct (ca a a') eqn:E1; try discriminate;
      destruct (ca a' a'') eqn:E2; try discriminate; intros H1 H2.
    + apply (cmp_eq La) in E1, E2. subst. rewrite (cmp_refl La).
      exact (cmp_trans Lb _ _ _ H1 H2).
    + apply (cmp_eq La) in E1. subst. now rewrite E2.
    + apply (cmp_eq La) in E2. subst. now rewrite E1.
    + now rewrite (cmp_trans La _ _ _ E1 E2).
Qed.

Lemma cmp_key_laws : order_laws cmp_key.
Proof.
  apply cmp_pair_laws; apply string_compare_laws.
Qed.

Lemma cmp_year_key_laws : order_laws cmp_year_key.
Proof.
  apply cmp_pair_laws; [apply Z_compare_laws | apply string_compare_laws].
Qed.

(** The axes of a pivot table: both increasing, hence without repeats. *)
Lemma pivot_table_axes {R C : Type} (cmpR : R -> R -> comparison)
    (cmpC : C -> C -> comparison) (records : list (option R * option C * float)) :
  order_laws cmpR -> order_laws cmpC ->
  StronglySorted (fun a b => cmpR a b = Lt) (PD.index (PD.pivot_table cmpR cmpC records)) /\
  StronglySorted (fun a b => cmpC a b = Lt) (PD.columns (PD.pivot_table cmpR cmpC records)).
Proof.
  intros LR LC. unfold PD.pivot_table, PD.columns, PD.dropna_all_columns.
  cbn [PD.index PD.cols]. split.
  - now apply sort_uniq_increasing.
  - apply increasing_filter_labels. rewrite map_map. cbn [fst]. rewrite map_id.
    now apply sort_uniq_increasing.
Qed.

(** X7. Both views of [data_read] keep the uniqueness that the lookups of
    [subset_data] rely on: the row keys come in strictly increasing
    lexicographic order and the column labels in strictly increasing order,
    so no row key and no column label occurs twice. *)
Theorem data_read_axes_increasing {T : Tokens} (file : raw_table) :
  exists df_years df_countries,
    data_read file = Ok (df_years, df_countries) /\
    StronglySorted (fun a b => cmp_key a b = Lt) (PD.index df_years) /\
    StronglySorted Z.lt (PD.columns df_years) /\
    NoDup (PD.index df_years) /\
    NoDup (PD.columns df_years) /\
    StronglySorted (fun a b => cmp_year_key a b = Lt) (PD.index df_countries) /\
    StronglySorted (fun a b => String.compare a b = Lt) (PD.columns df_countries) /\
    NoDup (PD.index df_countries) /\
    NoDup (PD.columns df_countries).
Proof.
  do 2 eexists. split; [apply data_read_unfold|].
  unfold pivot_years, pivot_countries.
  match goal with
  | |- context [PD.pivot_table cmp_key Z.compare ?r] =>
      destruct (pivot_table_axes r cmp_key_laws Z_compare_laws) as [Hi Hc]
  end.
  match goal with
  | |- context [PD.pivot_table cmp_year_key String.compare ?r] =>
      destruct (pivot_table_axes r cmp_year_key_laws string_compare_laws) as [Hi' Hc']
  end.
  repeat split; try assumption.
  - exact (increasing_NoDup cmp_key_laws Hi).
  - exact (increasing_NoDup Z_compare_laws Hc).
  - exact (increasing_NoDup cmp_year_key_laws Hi').
  - exact (increasing_NoDup string_compare_laws Hc').
Qed.

(** ** Where the labels and the values of a pivot table come from *)

Lemma combine_seq_In {A : Type} (l : list A) (k j : nat) (x : A) :
  In (j, x) (combine (seq k (length l)) l) -> k <= j /\ nth_error l (j - k) = Some x.
Proof.
  revert k; induction l as [|a l IH]; simpl; intros k H; [contradiction|].
  destruct H as [H|H].
  - injection H as <- <-. rewrite Nat.sub_diag. auto.
  - apply IH in H as [Hk H]. split; [lia|].
    replace (j - k) with (S (j - S k)) by lia. exact H.
Qed.

Lemma mean_has_value (vs : list float) :
  PD.notna (PD.mean vs) = true -> exists v, In v vs /\ PD.notna v = true.
Proof.
  unfold PD.mean. destruct (filter PD.notna vs) as [|v xs] eqn:E.
  - intros H. vm_compute in H. discriminate.
  - intros _. exists v. apply filter_In. rewrite E. now left.
Qed.

Section PivotSources.

Context {R C : Type} (cmpR : R -> R -> comparison) (cmpC : C -> C -> comparison).
Hypothesis lawsR : order_laws cmpR.
Hypothesis lawsC : order_laws cmpC.

Lemma same_eq {K : Type} (cmp : K -> K -> comparison) (x y : K) :
  order_laws cmp -> (PD.same cmp x y = true <-> x = y).
Proof.
  intros L. unfold PD.same. split.
  - destruct (cmp x y) eqn:E; try discriminate. intros _. now apply (cmp_eq L).
  - intros ->. now rewrite (cmp_refl L).
Qed.

Lemma groupby_keys_In (records : list (option R * option C * float)) (r : R) (c : C)
    (v : float) :
  In (r, c, v) (PD.groupby_keys records) <-> In (Some r, Some c, v) records.
Proof.
  unfold PD.groupby_keys. rewrite in_flat_map. split.
  - intros ([[[r'|] [c'|]] v'] & Hin & H); simpl in H; try contradiction.
    destruct H as [H|[]]. now injection H as -> -> ->.
  - intros H. exists (Some r, Some c, v). split; [exact H | now left].
Qed.

Lemma group_In (es : list (R * C * float)) (r : R) (c : C) (v : float) :
  In v (PD.group cmpR cmpC es r c) <-> In (r, c, v) es.
Proof.
  unfold PD.group. rewrite in_map_iff. split.
  - intros ([[r' c'] v'] & <- & H). apply filter_In in H as [H E]. cbn in E.
    apply andb_true_iff in E as [Er Ec].
    apply (proj1 (@same_eq _ cmpR _ _ lawsR)) in Er.
    apply (proj1 (@same_eq _ cmpC _ _ lawsC)) in Ec. now subst.
  - intros H. exists (r, c, v). split; [reflexivity|]. apply filter_In. split; [exact H|].
    cbn. apply andb_true_iff. split; [now apply (@same_eq _ cmpR _ _ lawsR) | now apply (@same_eq _ cmpC _ _ lawsC)].
Qed.

(** A group that is kept holds a value that is not missing. *)
Lemma agged_has_value (es : list (R * C * float)) (e : R * C * float) :
  In e (PD.agged cmpR cmpC es) ->
  exists v, In (fst (fst e), snd (fst e), v) es /\ PD.notna v = true.
Proof.
  unfold PD.agged. intros H. apply filter_In in H as [_ H].
  apply mean_has_value in H as (v & Hv & Hn). exists v. split; [|exact Hn].
  now apply group_In.
Qed.

Lemma pivot_index_has_value (records : list (option R * option C * float)) (r : R) :
  In r (PD.index (PD.pivot_table cmpR cmpC records)) ->
  exists c v, In (Some r, Some c, v) records /\ PD.notna v = true.
Proof.
  unfold PD.pivot_table, PD.dropna_all_columns. cbn [PD.index].
  intros H. apply sort_uniq_In in H. apply in_map_iff in H as (e & <- & He).
  apply agged_has_value in He as (v & Hv & Hn).
  exists (snd (fst e)), v. split; [now apply groupby_keys_In | exact Hn].
Qed.

Lemma pivot_column_has_value (records : list (option R * option C * float)) (c : C) :
  In c (PD.columns (PD.pivot_table cmpR cmpC records)) ->
  exists r v, In (Some r, Some c, v) records /\ PD.notna v = true.
Proof.
  unfold PD.pivot_table, PD.dropna_all_columns, PD.columns. cbn [PD.cols].
  intros H. apply in_map_iff in H as (col & <- & Hcol).
  apply filter_In in Hcol as [Hcol _]. apply in_map_iff in Hcol as (c' & <- & Hc').
  cbn [fst]. apply sort_uniq_In in Hc'. apply in_map_iff in Hc' as (e & <- & He).
  apply agged_has_value in He as (v & Hv & Hn).
  exists (fst (fst e)), v. split; [now apply groupby_keys_In | exact Hn].
Qed.

Lemma pivot_table_rectangular (records : list (option R * option C * float)) :
  rectangular (PD.pivot_table cmpR cmpC records).
Proof.
  unfold rectangular, PD.pivot_table, PD.dropna_all_columns. cbn [PD.index PD.cols].
  apply Forall_forall. intros col H. apply filter_In in H as [H _].
  apply in_map_iff in H as (c & <- & _). cbn [snd]. apply length_map.
Qed.

End PivotSources.

Section RecordSources.

Context {T : Tokens}.

Lemma long_records_In (w : wide_table) (c i : string) (y : option Z) (v : float) :
  In (c, i, y, v) (long_records w) ->
  exists r j lab,
    In r (wide_rows w) /\ nth_error (value_vars w) j = Some lab /\
    c = Country r /\ i = Indicator_Name r /\ y = int_token lab /\
    v = coerced read_value nan (nth j (cells r) (PD.Num nan)).
Proof.
  unfold long_records. intros H. apply in_flat_map in H as ([j lab] & Hjl & H).
  apply in_map_iff in H as (r & E & Hr). injection E as <- <- <- <-.
  apply combine_seq_In in Hjl as [_ Hjl]. rewrite Nat.sub_0_r in Hjl.
  exists r, j, lab. cbn [fst snd]. auto 7.
Qed.

(** The years view of a wide table: every row key and every column label
    comes from a cell of the table that reads as a number, under a year label
    that reads as an integer. *)
Lemma years_view_sources (w : wide_table) :
  (forall k, In k (PD.index (pivot_years (coerced_table (melt w)))) ->
     exists r j lab y,
       In r (wide_rows w) /\ k = (Country r, Indicator_Name r) /\
       nth_error (value_vars w) j = Some lab /\ int_token lab = Some y /\
       PD.notna (coerced read_value nan (nth j (cells r) (PD.Num nan))) = true) /\
  (forall y, In y (PD.columns (pivot_years (coerced_table (melt w)))) ->
     exists r j lab,
       In r (wide_rows w) /\
       nth_error (value_vars w) j = Some lab /\ int_token lab = Some y /\
       PD.notna (coerced read_value nan (nth j (cells r) (PD.Num nan))) = true).
Proof.
  rewrite pivot_years_records. split.
  - intros k H.
    apply (pivot_index_has_value cmp_key_laws Z_compare_laws) in H as (y & v & H & Hn).
    apply in_map_iff in H as ([[[c i] y'] v'] & E & H). injection E as <- -> ->.
    apply long_records_In in H as (r & j & lab & Hr & Hlab & -> & -> & Hy & ->).
    exists r, j, lab, y. auto 6.
  - intros y H.
    apply (pivot_column_has_value cmp_key_laws Z_compare_laws) in H as (k & v & H & Hn).
    apply in_map_iff in H as ([[[c i] y'] v'] & E & H). injection E as _ -> ->.
    apply long_records_In in H as (r & j & lab & Hr & Hlab & _ & _ & Hy & ->).
    exists r, j, lab. auto 6.
Qed.

End RecordSources.


Lemma Forall_slice {A : Type} (P : A -> Prop) (l : list A) (n m : nat) :
  Forall P l -> Forall P (firstn n (skipn m l)).
Proof.
  intros H. rewrite <- (firstn_skipn m l) in H. apply Forall_app in H as [_ H].
  rewrite <- (firstn_skipn n (skipn m l)) in H. now apply Forall_app in H as [H _].
Qed.

(** X9. The slice that [filter_Methane_emission_data] returns stays inside
    the request: every row key pairs a requested country with a requested
    indicator and belongs to a row of the file, every column label lies
    between [start_year] and [end_year], the labels increase strictly, and
    every column holds one value per row key. *)
Theorem filter_within_request {T : Tokens} (file : raw_table)
    (countries indicators : list string) (start_year end_year : Z) :
  exists data,
    filter_Methane_emission_data file countries indicators start_year end_year = Ok data /\
    (forall k, In k (PD.index data) ->
       In (fst k) countries /\ In (snd k) indicators /\
       exists r, In r (raw_rows file) /\ k = (country_name r, indicator_name r)) /\
    (forall y, In y (PD.columns data) -> (start_year <= y <= end_year)%Z) /\
    StronglySorted Z.lt (PD.columns data) /\
    rectangular data.
Proof.
  eexists. split; [apply filter_unfold|].
  set (w := filter_rows countries indicators (drop_and_rename file)).
  assert (Hs : StronglySorted Z.lt (PD.columns (pivot_years (coerced_table (melt w)))))
    by (unfold pivot_years; apply pivot_table_columns_sorted).
  split; [|split; [|split]].
  - intros k H. cbn [PD.loc_slice PD.index] in H.
    destruct (years_view_sources w) as [Hk _].
    destruct (Hk k H) as (r' & j & lab & y & Hw & -> & _).
    unfold w in Hw. cbn in Hw. apply filter_In in Hw as [Hw E].
    apply andb_true_iff in E as [Ec Ei]. apply isin_In in Ec, Ei.
    apply in_map_iff in Hw as (r & <- & Hr). cbn in *. eauto.
  - intros y H. rewrite loc_slice_label_range in H by exact Hs.
    unfold PD.columns, label_range in H. cbn [PD.cols] in H.
    apply in_map_iff in H as (col & <- & H). apply filter_In in H as [_ H].
    apply andb_true_iff in H as [H1 H2]. apply Z.leb_le in H1, H2. lia.
  - rewrite loc_slice_label_range by exact Hs.
    unfold PD.columns, label_range. cbn [PD.cols]. now apply sorted_filter_labels.
  - unfold rectangular, PD.loc_slice. cbn [PD.index PD.cols].
    apply Forall_slice. unfold pivot_years.
    apply (pivot_table_rectangular cmp_key Z.compare).
Qed.

(** ** The cells of the table that [subset_data] returns *)

Section Lookups.

Context {K : Type} (eqb : K -> K -> bool).

Lemma index_of_nth (k : K) (l : list K) (j : nat) :
  index_of eqb k l = Some j -> exists k', nth_error l j = Some k' /\ eqb k' k = true.
Proof.
  revert j; induction l as [|a l IH]; simpl; intros j H; [discriminate|].
  destruct (eqb a k) eqn:E.
  - injection H as <-. exists a. auto.
  - destruct (index_of eqb k l) as [j'|]; [|discriminate]. injection H as <-.
    simpl. now apply IH.
Qed.

Lemma index_of_found (k : K) (l : list K) :
  eqb k k = true -> In k l -> exists j, index_of eqb k l = Some j.
Proof.
  intros Hk. induction l as [|a l IH]; simpl; intros H; [contradiction|].
  destruct (eqb a k) eqn:E; [eauto|].
  destruct H as [->|H]; [congruence|].
  destruct (IH H) as [j ->]. simpl. eauto.
Qed.

End Lookups.

Lemma find_app_first {A : Type} (p : A -> bool) (a b : list A) :
  find p (a ++ b) = match find p a with Some x => Some x | None => find p b end.
Proof.
  induction a as [|x a IH]; simpl; [reflexivity|]. destruct (p x); [reflexivity | exact IH].
Qed.

Lemma find_filter_same {A : Type} (p : A -> bool) (l : list A) :
  find p (filter p l) = find p l.
Proof.
  induction l as [|x l IH]; simpl; [reflexivity|].
  destruct (p x) eqn:E; simpl; [now rewrite E | exact IH].
Qed.

Lemma find_filter_other {A : Type} (p q : A -> bool) (l : list A) :
  (forall x, q x = true -> p x = false) -> find p (filter q l) = None.
Proof.
  intros H. induction l as [|x l IH]; simpl; [reflexivity|].
  destruct (q x) eqn:E; simpl; [rewrite (H x E)|]; exact IH.
Qed.

Lemma find_map_snd {C X Y : Type} (p : C -> bool) (h : X -> Y) (l : list (C * X)) :
  find (fun col => p (fst col)) (map (fun c => (fst c, h (snd c))) l)
  = option_map (fun c => (fst c, h (snd c))) (find (fun col => p (fst col)) l).
Proof.
  induction l as [|c l IH]; simpl; [reflexivity|]. destruct (p (fst c)); [reflexivity | exact IH].
Qed.

Lemma mapM_ok_map {A B : Type} (f : A -> result B) (g : A -> B) (l : list A) (out : list B) :
  (forall a b, f a = Ok b -> b = g a) -> mapM f l = Ok out -> out = map g l.
Proof.
  intros Hf. revert out; induction l as [|a l IH]; simpl; intros out H.
  - now injection H as <-.
  - apply bind_ok in H as (b & Hb & H). apply bind_ok in H as (bs & Hbs & H).
    injection H as <-. now rewrite (Hf _ _ Hb), (IH _ Hbs).
Qed.

(** What [loc_columns] returns: for each requested label, the columns that
    carry it, and every label found. *)
Lemma loc_columns_cols {R : Type} (f by_label : PD.frame R Z) (labels : list Z) :
  PD.loc_columns f labels = Ok by_label ->
  PD.index by_label = PD.index f /\
  PD.cols by_label
  = flat_map (fun y => filter (fun c => Z.eqb (fst c) y) (PD.cols f)) labels /\
  forall y, In y labels -> find (fun c => Z.eqb (fst c) y) (PD.cols f) <> None.
Proof.
  unfold PD.loc_columns. intros H. apply bind_ok in H as (picked & Hp & H).
  injection H as <-. cbn [PD.index PD.cols]. split; [reflexivity|]. split.
  - assert (Hpk : picked = map (fun y => filter (fun c => Z.eqb (fst c) y) (PD.cols f)) labels).
    { eapply mapM_ok_map; [|exact Hp]. intros y b. cbn beta.
      destruct (filter _ (PD.cols f)); [discriminate | now intros [= <-]]. }
    rewrite Hpk. symmetry. apply flat_map_concat_map.
  - intros y Hy Hnone. clear - Hp Hy Hnone.
    revert picked Hp; induction labels as [|z l IH]; simpl; intros picked Hp; [contradiction|].
    apply bind_ok in Hp as (b & Hb & Hp). apply bind_ok in Hp as (bs & Hbs & _).
    destruct Hy as [->|Hy]; [|now apply (IH Hy bs)].
    rewrite <- find_filter_same in Hnone.
    destruct (filter _ (PD.cols f)) as [|col rest] eqn:Ef; [discriminate|].
    assert (Hcol : Z.eqb (fst col) y = true).
    { assert (Hin : In col (filter (fun c => Z.eqb (fst c) y) (PD.cols f)))
        by (rewrite Ef; now left).
      now apply filter_In in Hin as [_ Hin]. }
    simpl in Hnone. rewrite Hcol in Hnone. discriminate.
Qed.

Lemma find_by_label {X : Type} (l : list (Z * X)) (labels : list Z) (y : Z) :
  In y labels ->
  find (fun c => Z.eqb (fst c) y)
       (flat_map (fun z => filter (fun c => Z.eqb (fst c) z) l) labels)
  = find (fun c => Z.eqb (fst c) y) l \/
  find (fun c => Z.eqb (fst c) y) l = None.
Proof.
  induction labels as [|z labels IH]; simpl; intros H; [contradiction|].
  rewrite find_app_first. destruct (Z.eq_dec z y) as [->|Hne].
  - rewrite find_filter_same. destruct (find _ l); [now left | now right].
  - rewrite find_filter_other.
    + apply IH. destruct H; [contradiction | assumption].
    + intros c Hc. apply Z.eqb_eq in Hc. apply Z.eqb_neq. congruence.
Qed.

Lemma positions_from_nth {K : Type} (test : K -> bool) (l : list K) (p0 : nat)
    (q : nat * K) :
  In q (PD.positions_from p0 test l) ->
  p0 <= fst q /\ nth_error l (fst q - p0) = Some (snd q).
Proof.
  revert p0; induction l as [|k l IH]; simpl; intros p0 H; [contradiction|].
  assert (Hrest : In q (PD.positions_from (S p0) test l) ->
                  p0 <= fst q /\ nth_error (k :: l) (fst q - p0) = Some (snd q)).
  { intros H'. apply IH in H' as [Hle Hn]. split; [lia|].
    replace (fst q - p0) with (S (fst q - S p0)) by lia. exact Hn. }
  destruct (test k); [|now apply Hrest].
  destruct H as [<-|H]; [|now apply Hrest].
  simpl. rewrite Nat.sub_diag. auto.
Qed.

Lemma get_locs_positions (idx : list (string * string)) (countries indicators : list string)
    (found : list (nat * (string * string))) :
  PD.get_locs idx countries indicators = Ok found ->
  forall q, In q found -> nth_error idx (fst q) = Some (snd q).
Proof.
  unfold PD.get_locs.
  destruct countries as [|c0 cs]; [intros [= <-] q []|].
  destruct (forallb _ (c0 :: cs)); [|discriminate].
  destruct indicators as [|i0 l]; [intros [= <-] q []|].
  destruct (forallb _ (i0 :: l)); [|discriminate].
  destruct (flat_map _ _) as [|q0 found'] eqn:E; [discriminate|].
  intros [= <-] q Hq. rewrite <- E in Hq.
  apply in_flat_map in Hq as (c & _ & Hq). apply in_flat_map in Hq as (i & _ & Hq).
  apply positions_from_nth in Hq as [_ Hq]. now rewrite Nat.sub_0_r in Hq.
Qed.

(** Transposing a frame swaps the two labels of a lookup. *)
Lemma find_transposed {R : Type} (eqR : R -> R -> bool) (g : nat -> list float)
    (r : R) (idx : list R) (k : nat) :
  find (fun col => eqR (fst col) r)
       (map (fun ir => (snd ir, g (fst ir))) (combine (seq k (length idx)) idx))
  = match index_of eqR r idx with
    | Some p => option_map (fun r' => (r', g (k + p))) (nth_error idx p)
    | None => None
    end.
Proof.
  revert k; induction idx as [|a idx IH]; intros k; simpl; [reflexivity|].
  destruct (eqR a r); [now rewrite Nat.add_0_r|].
  rewrite IH. destruct (index_of eqR r idx) as [p|]; simpl; [|reflexivity].
  now rewrite Nat.add_succ_r.
Qed.

Lemma index_of_labels {C X : Type} (eqC : C -> C -> bool) (c : C) (l : list (C * X)) :
  match index_of eqC c (map fst l), find (fun col => eqC (fst col) c) l with
  | Some q, Some col => nth_error l q = Some col
  | None, None => True
  | _, _ => False
  end.
Proof.
  induction l as [|a l IH]; simpl; [exact I|].
  destruct (eqC (fst a) c); [reflexivity|].
  destruct (index_of eqC c (map fst l)), (find _ l); simpl; auto.
Qed.

Lemma transpose_cell_at {R C : Type} (eqR : R -> R -> bool) (eqC : C -> C -> bool)
    (f : PD.frame R C) (r : R) (c : C) :
  cell_at eqC eqR (PD.transpose f) c r = cell_at eqR eqC f r c.
Proof.
  unfold cell_at, PD.transpose. cbn [PD.index PD.cols]. unfold PD.columns.
  rewrite find_transposed.
  pose proof (index_of_labels eqC c (PD.cols f)) as Hq.
  destruct (index_of eqR r (PD.index f)) as [p|] eqn:Ep.
  - destruct (index_of_nth _ _ _ Ep) as (r' & Hr' & _). rewrite Hr'. cbn [option_map].
    destruct (index_of eqC c (map fst (PD.cols f))) as [q|],
             (find (fun col => eqC (fst col) c) (PD.cols f)) as [col|];
      try contradiction; [|reflexivity].
    f_equal. cbn [snd]. unfold PD.iloc.
    rewrite nth_indep with (d' := (fun c0 : C * list float => nth p (snd c0) nan) col)
      by (rewrite length_map; apply nth_error_Some; congruence).
    rewrite (map_nth (fun c0 : C * list float => nth p (snd c0) nan)).
    now rewrite (nth_error_nth (PD.cols f) q col Hq).
  - destruct (index_of eqC c (map fst (PD.cols f))); reflexivity.
Qed.

(** X10. The table [subset_data] returns is the transposed selection, cell
    by cell: when the row keys of the years view are unique, the cell at a
    year of 1990..2018 and a requested (country, indicator) pair that is a
    row key is the cell of the years view at that key and year. *)
Theorem subset_data_cells (df_years : PD.frame (string * string) Z)
    (countries indicators : list string) (df : PD.frame Z (string * string))
    (y : Z) (c i : string) :
  NoDup (PD.index df_years) ->
  subset_data df_years countries indicators = Ok df ->
  In y years_1990_2018 -> In c countries -> In i indicators ->
  In (c, i) (PD.index df_years) ->
  cell_at Z.eqb PD.key_eqb df y (c, i) = cell_at PD.key_eqb Z.eqb df_years (c, i) y /\
  cell_at PD.key_eqb Z.eqb df_years (c, i) y <> None.
Proof.
  intros Hnd H Hy Hc Hi Hk. unfold subset_data, PD.loc in H.
  apply bind_ok in H as (sel & H & E). injection E as <-.
  apply bind_ok in H as (by_year & Hby & H). apply bind_ok in H as (found & Hf & H).
  injection H as <-.
  rewrite transpose_cell_at.
  destruct (loc_columns_cols _ _ Hby) as (_ & Hcols & Hfound).
  assert (Hin : In (c, i) (map snd found))
    by (apply (get_locs_found _ _ _ Hf); auto).
  destruct (index_of_found PD.key_eqb (c, i) (map snd found)) as [j Hj];
    [now apply key_eqb_eq | exact Hin |].
  destruct (index_of_found PD.key_eqb (c, i) (PD.index df_years)) as [p Hp];
    [now apply key_eqb_eq | exact Hk |].
  destruct (index_of_nth _ _ _ Hj) as (k' & Hk' & Ek'). apply key_eqb_eq in Ek'. subst k'.
  destruct (index_of_nth _ _ _ Hp) as (k' & Hp' & Ek'). apply key_eqb_eq in Ek'. subst k'.
  rewrite nth_error_map in Hk'.
  destruct (nth_error found j) as [[p' k']|] eqn:Hq; [|discriminate].
  cbn in Hk'. injection Hk' as ->.
  assert (Hpos : nth_error (PD.index df_years) p' = Some (c, i))
    by (apply (get_locs_positions _ _ _ Hf (p', (c, i))); eapply nth_error_In; eauto).
  assert (p' = p).
  { apply (proj1 (NoDup_nth_error _) Hnd); [apply nth_error_Some; congruence | congruence]. }
  subst p'.
  unfold cell_at. cbn [PD.take_rows PD.index PD.cols]. rewrite Hj, Hp.
  pose proof (find_map_snd (fun l => Z.eqb l y)
                (fun col => map (fun q : nat * (string * string) => nth (fst q) col nan) found)
                (PD.cols by_year)) as Hfm.
  cbn beta in Hfm. rewrite Hfm, Hcols. clear Hfm.
  destruct (find_by_label (PD.cols df_years) years_1990_2018 y Hy) as [-> | Hnone];
    [|now apply Hfound in Hnone].
  destruct (find (fun c0 => Z.eqb (fst c0) y) (PD.cols df_years)) as [col|] eqn:Ecol;
    [|now apply Hfound in Ecol].
  cbn [option_map snd]. split; [|discriminate]. f_equal.
  rewrite nth_indep with (d' := (fun q : nat * (string * string) => nth (fst q) (snd col) nan)
                                  (p, (c, i)))
    by (rewrite length_map; apply nth_error_Some; congruence).
  rewrite (map_nth (fun q : nat * (string * string) => nth (fst q) (snd col) nan)).
  now rewrite (nth_error_nth found j (p, (c, i)) Hq).
Qed.

(** The cell of (India, CO2) in 1995. *)
Lemma subset_data_cells_witness :
  cell_at Z.eqb PD.key_eqb Bench.india_co2 1995%Z ("India", "CO2")%string
  = cell_at PD.key_eqb Z.eqb Bench.two_keys ("India", "CO2")%string 1995%Z /\
  cell_at PD.key_eqb Z.eqb Bench.two_keys ("India", "CO2")%string 1995%Z <> None.
Proof.
  apply (@subset_data_cells Bench.two_keys ["India"%string] ["CO2"%string]
           Bench.india_co2 1995%Z "India"%string "CO2"%string).
  - repeat constructor; simpl; intuition discriminate.
  - vm_compute. reflexivity.
  - vm_compute. tauto.
  - simpl. auto.
  - simpl. auto.
  - simpl. auto.
Defined.

(** ** How [subset_data] fails *)

Lemma mapM_fails {A B : Type} (f : A -> result B) (l : list A) (a : A) (e0 : exn) :
  In a l -> f a = Raise e0 ->
  (forall a' e', f a' = Raise e' -> e' = e0) ->
  mapM f l = Raise e0.
Proof.
  intros Hin Ha Hall. induction l as [|x l IH]; simpl; [contradiction|].
  destruct (f x) as [b|e] eqn:E; simpl.
  - destruct Hin as [->|Hin]; [congruence|]. now rewrite (IH Hin).
  - now rewrite (Hall _ _ E).
Qed.

Lemma loc_columns_missing {R : Type} (f : PD.frame R Z) (labels : list Z) (y : Z) :
  In y labels -> ~ In y (PD.columns f) -> PD.loc_columns f labels = Raise KeyError.
Proof.
  intros Hy Hmiss. unfold PD.loc_columns.
  rewrite mapM_fails with (a := y) (e0 := KeyError); auto.
  - rewrite filter_nothing; [reflexivity|].
    intros c Hc. apply Z.eqb_neq. intros <-. apply Hmiss. now apply in_map.
  - intros z e. destruct (filter _ (PD.cols f)); [now intros [= <-] | discriminate].
Qed.

Lemma flat_map_nothing_in {X A : Type} (f : X -> list A) (l : list X) :
  (forall x, In x l -> f x = []) -> flat_map f l = [].
Proof.
  intros H. induction l as [|x l IH]; simpl; [reflexivity|].
  rewrite H by now left. apply IH. intros z Hz. apply H. now right.
Qed.

Lemma get_locs_no_match (idx : list (string * string)) (countries indicators : list string) :
  countries <> [] -> indicators <> [] ->
  (forall k, In k idx -> ~ (In (fst k) countries /\ In (snd k) indicators)) ->
  PD.get_locs idx countries indicators = Raise KeyError.
Proof.
  intros Hc Hi Hnone. unfold PD.get_locs.
  destruct countries as [|c0 cs]; [contradiction|].
  destruct (forallb _ (c0 :: cs)); [|reflexivity].
  destruct indicators as [|i0 l]; [contradiction|].
  destruct (forallb _ (i0 :: l)); [|reflexivity].
  rewrite flat_map_nothing_in; [reflexivity|]. intros c Hin. rewrite unique_In in Hin.
  apply flat_map_nothing_in. intros i Hin'. rewrite unique_In in Hin'.
  apply positions_from_none.
  intros k Hk. destruct (PD.key_eqb (c, i) k) eqn:E; [|reflexivity].
  apply key_eqb_eq in E. subst k. exfalso. apply (Hnone (c, i) Hk). auto.
Qed.

(** X11. [subset_data] fails with [KeyError] and with nothing else: it raises
    [KeyError] when a year of 1990..2018 is not a column label of the years
    view, and when countries and indicators are requested but no row key
    pairs a requested country with a requested indicator (it does not return
    an empty table then). *)
Theorem subset_data_key_errors (df_years : PD.frame (string * string) Z)
    (countries indicators : list string) :
  (forall e, subset_data df_years countries indicators = Raise e -> e = KeyError) /\
  (forall y, In y years_1990_2018 -> ~ In y (PD.columns df_years) ->
     subset_data df_years countries indicators = Raise KeyError) /\
  (countries <> [] -> indicators <> [] ->
   (forall k, In k (PD.index df_years) ->
              ~ (In (fst k) countries /\ In (snd k) indicators)) ->
   subset_data df_years countries indicators = Raise KeyError).
Proof.
  unfold subset_data, PD.loc. split; [|split].
  - intros e.
    destruct (PD.loc_columns df_years years_1990_2018) as [by_year|e1] eqn:E1; cbn [bind].
    + destruct (PD.get_locs _ countries indicators) as [found|e2] eqn:E2; cbn [bind];
        [discriminate|].
      intros [= <-]. exact (@get_locs_raises _ _ _ _ E2).
    + intros [= <-]. exact (@loc_columns_raises _ _ _ _ E1).
  - intros y Hy Hmiss. now rewrite (@loc_columns_missing _ df_years _ y Hy Hmiss).
  - intros Hc Hi Hnone.
    destruct (PD.loc_columns df_years years_1990_2018) as [by_year|e1] eqn:E1; cbn [bind].
    + now rewrite (get_locs_no_match _ Hc Hi Hnone).
    + now rewrite (@loc_columns_raises _ _ _ _ E1).
Qed.

(** ** Rectangular tables *)

Lemma combine_seq_snd {A : Type} (l : list A) (k : nat) :
  map snd (combine (seq k (length l)) l) = l.
Proof.
  revert k; induction l as [|a l IH]; intros k; simpl; [reflexivity | now rewrite IH].
Qed.

Lemma transpose_rectangular {R C : Type} (f : PD.frame R C) : rectangular (PD.transpose f).
Proof.
  destruct (transpose_labels f) as (Hi & _ & H). unfold rectangular.
  rewrite Hi. unfold PD.columns. now rewrite length_map.
Qed.

(** The tables the reshaper hands out are rectangular: in both views of
    [data_read], and in the table [subset_data] returns, every column holds
    exactly one value per index entry. *)
Theorem reshaped_tables_rectangular {T : Tokens} :
  (forall file, exists df_years df_countries,
      data_read file = Ok (df_years, df_countries) /\
      rectangular df_years /\ rectangular df_countries) /\
  (forall df_years countries indicators df,
      subset_data df_years countries indicators = Ok df -> rectangular df).
Proof.
  split.
  - intros file. do 2 eexists. split; [apply data_read_unfold|].
    split; apply pivot_table_rectangular.
  - intros df_years countries indicators df H. unfold subset_data in H.
    apply bind_ok in H as (sel & _ & H). injection H as <-.
    apply transpose_rectangular.
Qed.

(** ** [normalize_data] *)

Lemma row_by_labels {C : Type} (labels : list C) (row pre : list float) :
  length row = length labels ->
  map (fun jl : nat * C => nth (fst jl) (pre ++ row) nan)
      (combine (seq (length pre) (length labels)) labels)
  = row.
Proof.
  revert row pre; induction labels as [|c labels IH]; intros [|x row] pre H;
    try discriminate; [reflexivity|].
  simpl. rewrite nth_middle. f_equal.
  specialize (IH row (pre ++ [x])). rewrite length_app, Nat.add_1_r, <- app_assoc in IH.
  apply IH. simpl in H. lia.
Qed.

(** X12. [normalize_data] hands back the scaler's array under the column
    labels of its argument, with the rows numbered from 0: the row labels
    of the argument (the years, after [subset_data]) are not carried over.
    Row i of the result is row i of the scaled array, and the result is
    rectangular. *)
Theorem normalize_data_frame {S : Scaler} {R C : Type} (df : PD.frame R C)
    (df_normalized : PD.frame nat C) :
  normalize_data df = Ok df_normalized ->
  exists scaled,
    fit_transform (to_numpy df) = Ok scaled /\
    PD.index df_normalized = seq 0 (length scaled) /\
    PD.columns df_normalized = PD.columns df /\
    rectangular df_normalized /\
    forall i, i < length scaled -> PD.iloc df_normalized i = nth i scaled [].
Proof.
  unfold normalize_data, DataFrame. intros H.
  apply bind_ok in H as (scaled & Hs & H). exists scaled. split; [exact Hs|].
  destruct (forallb _ scaled) eqn:Hw; [|discriminate]. injection H as <-.
  cbn [PD.index PD.cols]. split; [reflexivity|]. split; [|split].
  - unfold PD.columns at 1. cbn [PD.cols]. rewrite map_map. cbn [fst].
    apply combine_seq_snd.
  - unfold rectangular. cbn [PD.index PD.cols]. apply Forall_forall.
    intros col Hcol. apply in_map_iff in Hcol as (jl & <- & _). cbn [snd].
    now rewrite length_map, length_seq.
  - intros i Hi. unfold PD.iloc. cbn [PD.cols]. rewrite map_map. cbn [snd].
    rewrite forallb_forall in Hw.
    assert (Hrow : length (nth i scaled []) = length (PD.columns df))
      by (apply Nat.eqb_eq, Hw, nth_In, Hi).
    etransitivity; [|exact (row_by_labels (PD.columns df) (nth i scaled []) [] Hrow)].
    cbn [length app]. apply map_ext. intros jl.
    rewrite nth_indep with (d' := (fun row : list float => nth (fst jl) row nan) [])
      by (now rewrite length_map).
    now rewrite (map_nth (fun row : list float => nth (fst jl) row nan)).
Qed.

(** Two years of two series. *)
Lemma normalize_data_frame_witness :
  exists scaled,
    fit_transform (Scaler := Bench.scaler) (to_numpy Bench.two_series) = Ok scaled /\
    PD.index {| PD.index := [0; 1];
                PD.cols := [(("India", "CO2")%string, [-1; 1]%float);
                            (("Japan", "CH4")%string, [-1; 1]%float)] |}
    = seq 0 (length scaled) /\
    PD.columns {| PD.index := [0; 1];
                  PD.cols := [(("India", "CO2")%string, [-1; 1]%float);
                              (("Japan", "CH4")%string, [-1; 1]%float)] |}
    = PD.columns Bench.two_series /\
    rectangular {| PD.index := [0; 1];
                   PD.cols := [(("India", "CO2")%string, [-1; 1]%float);
                               (("Japan", "CH4")%string, [-1; 1]%float)] |} /\
    forall i, i < length scaled ->
      PD.iloc {| PD.index := [0; 1];
                 PD.cols := [(("India", "CO2")%string, [-1; 1]%float);
                             (("Japan", "CH4")%string, [-1; 1]%float)] |} i
      = nth i scaled [].
Proof.
  apply (@normalize_data_frame Bench.scaler Z (string * string) Bench.two_series).
  vm_compute. reflexivity.
Defined.

(** ** The cells of a pivot table, and the two views side by side *)

Section PivotCells.

Context {R C : Type} (cmpR : R -> R -> comparison) (cmpC : C -> C -> comparison).
Context (eqR : R -> R -> bool) (eqC : C -> C -> bool).
Hypothesis lawsR : order_laws cmpR.
Hypothesis lawsC : order_laws cmpC.
Hypothesis eqR_eq : forall a b, eqR a b = true <-> a = b.
Hypothesis eqC_eq : forall a b, eqC a b = true <-> a = b.

Variable records : list (option R * option C * float).

Let es := PD.groupby_keys records.
Let idx := PD.sort_uniq cmpR (map (fun e : R * C * float => fst (fst e)) (PD.agged cmpR cmpC es)).

Lemma pivot_cols_In (col : C * list float) :
  In col (PD.cols (PD.pivot_table cmpR cmpC records)) ->
  snd col = map (fun r => PD.agg cmpR cmpC es r (fst col)) idx.
Proof.
  unfold PD.pivot_table, PD.dropna_all_columns. cbn [PD.cols]. intros H.
  apply filter_In in H as [H _]. apply in_map_iff in H as (c & <- & _). reflexivity.
Qed.

Lemma pivot_cell_value (r : R) (c : C) (p : nat) (col : C * list float) :
  index_of eqR r (PD.index (PD.pivot_table cmpR cmpC records)) = Some p ->
  find (fun col => eqC (fst col) c) (PD.cols (PD.pivot_table cmpR cmpC records)) = Some col ->
  nth p (snd col) nan = PD.agg cmpR cmpC es r c.
Proof.
  intros Hp Hcol. apply index_of_nth in Hp as (r' & Hr' & E). apply eqR_eq in E. subst r'.
  apply find_some in Hcol as [Hcol E]. apply eqC_eq in E.
  rewrite (pivot_cols_In _ Hcol), E.
  change (PD.index (PD.pivot_table cmpR cmpC records)) with idx in Hr'.
  rewrite nth_indep with (d' := (fun r0 => PD.agg cmpR cmpC es r0 c) r)
    by (rewrite length_map; apply nth_error_Some; congruence).
  rewrite (map_nth (fun r0 => PD.agg cmpR cmpC es r0 c)).
  now rewrite (nth_error_nth idx p r Hr').
Qed.

(** A cell that is not missing is the mean of its group, and every group
    with a mean has its cell. *)
Lemma pivot_cell (r : R) (c : C) (v : float) :
  PD.notna v = true ->
  (cell_at eqR eqC (PD.pivot_table cmpR cmpC records) r c = Some v <->
   PD.agg cmpR cmpC es r c = v).
Proof.
  intros Hv. unfold cell_at. split.
  - destruct (index_of eqR r _) as [p|] eqn:Ep; [|discriminate].
    destruct (find _ _) as [col|] eqn:Ecol; [|discriminate].
    intros [= <-]. symmetry. now apply pivot_cell_value.
  - intros Hagg.
    assert (Hn : PD.notna (PD.agg cmpR cmpC es r c) = true) by now rewrite Hagg.
    destruct (mean_has_value _ Hn) as (v' & Hv' & _).
    apply (group_In lawsR lawsC) in Hv'.
    assert (He : In (r, c, v') (PD.agged cmpR cmpC es))
      by (apply filter_In; split; [exact Hv' | exact Hn]).
    assert (Hr : In r idx).
    { apply (sort_uniq_keeps lawsR).
      now apply (in_map (fun e : R * C * float => fst (fst e))) in He. }
    assert (Hc : In c (PD.sort_uniq cmpC
                         (map (fun e : R * C * float => snd (fst e)) (PD.agged cmpR cmpC es)))).
    { apply (sort_uniq_keeps lawsC).
      now apply (in_map (fun e : R * C * float => snd (fst e))) in He. }
    destruct (index_of_found eqR r idx) as [p Hp]; [now apply eqR_eq | exact Hr |].
    change (PD.index (PD.pivot_table cmpR cmpC records)) with idx. rewrite Hp.
    destruct (find (fun col => eqC (fst col) c) (PD.cols (PD.pivot_table cmpR cmpC records)))
      as [col|] eqn:Ecol.
    + f_equal. rewrite <- Hagg. now apply pivot_cell_value.
    + exfalso.
      assert (Hcol : In (c, map (fun r0 => PD.agg cmpR cmpC es r0 c) idx)
                        (PD.cols (PD.pivot_table cmpR cmpC records))).
      { unfold PD.pivot_table, PD.dropna_all_columns. cbn [PD.cols].
        apply filter_In. split.
        - apply (in_map (fun c0 => (c0, map (fun r0 => PD.agg cmpR cmpC es r0 c0) idx))). exact Hc.
        - cbn [snd]. apply existsb_exists. exists (PD.agg cmpR cmpC es r c).
          split; [|exact Hn].
          apply (in_map (fun r0 => PD.agg cmpR cmpC es r0 c)). exact Hr. }
      pose proof (find_none _ _ Ecol _ Hcol) as Hf. cbn [fst] in Hf.
      rewrite (proj2 (eqC_eq c c) eq_refl) in Hf. discriminate.
Qed.

End PivotCells.

Lemma same_cmp_pair {A B : Type} (ca : A -> A -> comparison) (cb : B -> B -> comparison)
    (x y : A * B) :
  PD.same (PD.cmp_pair ca cb) x y = PD.same ca (fst x) (fst y) && PD.same cb (snd x) (snd y).
Proof.
  unfold PD.same, PD.cmp_pair. destruct (ca (fst x) (fst y)); simpl; try reflexivity.
Qed.

Lemma year_key_eqb_eq (a b : Z * string) : year_key_eqb a b = true <-> a = b.
Proof.
  destruct a as [a1 a2], b as [b1 b2]. unfold year_key_eqb. simpl.
  rewrite andb_true_iff, Z.eqb_eq, String.eqb_eq.
  split; [intros [-> ->] | intros [= -> ->]]; auto.
Qed.

(** The group of a (country, indicator) key and a year in the records of the
    years view is the group of the (year, indicator) key and the country in
    the records of the countries view. *)
Lemma groups_agree (recs : list (string * string * option Z * float))
    (c i : string) (y : Z) :
  PD.group cmp_key Z.compare
    (PD.groupby_keys
       (map (fun e => match e with (c', i', y', v') => (Some (c', i'), y', v') end) recs))
    (c, i) y
  = PD.group cmp_year_key String.compare
      (PD.groupby_keys
         (map (fun e => match e with
                        | (c', i', y', v') => (option_map (fun y'' => (y'', i')) y', Some c', v')
                        end) recs))
      (y, i) c.
Proof.
  unfold PD.group. induction recs as [|[[[c' i'] [y'|]] v'] recs IH]; simpl;
    [reflexivity | | exact IH].
  unfold cmp_key, cmp_year_key. rewrite !same_cmp_pair. cbn [fst snd].
  replace (PD.same Z.compare y' y && PD.same String.compare i' i && PD.same String.compare c' c)
    with (PD.same String.compare c' c && PD.same String.compare i' i && PD.same Z.compare y' y)
    by (destruct (PD.same String.compare c' c), (PD.same String.compare i' i),
                 (PD.same Z.compare y' y); reflexivity).
  destruct (PD.same String.compare c' c && PD.same String.compare i' i && PD.same Z.compare y' y);
    simpl; [f_equal|]; exact IH.
Qed.

(** X13. The two views of [data_read] hold the same values: a value that is
    not missing stands in the years view at row (country, indicator) and
    column year exactly when it stands in the countries view at row
    (year, indicator) and column country. *)
Theorem data_read_views_agree {T : Tokens} (file : raw_table) :
  exists df_years df_countries,
    data_read file = Ok (df_years, df_countries) /\
    forall (c i : string) (y : Z) (v : float),
      PD.notna v = true ->
      (cell_at PD.key_eqb Z.eqb df_years (c, i) y = Some v <->
       cell_at year_key_eqb String.eqb df_countries (y, i) c = Some v).
Proof.
  do 2 eexists. split; [apply data_read_unfold|].
  intros c i y v Hv.
  rewrite pivot_years_records, pivot_countries_records.
  rewrite (@pivot_cell _ _ cmp_key Z.compare PD.key_eqb Z.eqb cmp_key_laws Z_compare_laws
             key_eqb_eq Z.eqb_eq _ _ _ _ Hv).
  rewrite (@pivot_cell _ _ cmp_year_key String.compare year_key_eqb String.eqb
             cmp_year_key_laws string_compare_laws year_key_eqb_eq String.eqb_eq _ _ _ _ Hv).
  unfold PD.agg. now rewrite groups_agree.
Qed.

(** ** What a cell of the years view is computed from *)





Section CellSources.

Context {T : Tokens}.



End CellSources.

